(** * PHOEBE 2 N-body dynamics ([phoebe/dynamics/nbody.py])

    A shallow embedding of [keplerian_from_cartesian], of the rebound driver
    [dynamics_from_bundle_rebound] (with its closures [particle_ltte],
    [com_phantom_particle] and [calculate_euler]) and of the photodynam
    driver [dynamics_from_bundle_bs] / [dynamics_bs].

    The numpy [float64] operations the module uses are collected in the
    interface [FloatOps]; the program is written once over that interface.
    Theorems stated for every instance hold for IEEE doubles as well as for
    the real numbers; concrete runs are evaluated in the instance [R_ops] over
    the real numbers of the Standard Library. *)

From stdpp Require Import base list gmap strings.
From Stdlib Require Import QArith Reals Lra Lia.

Set Default Proof Using "Type".

(** ** The float interface *)

Class FloatOps (F : Type) := {
  lit : Q -> F;                 (* a numeric literal *)
  f_pi : F;                     (* np.pi *)
  fadd : F -> F -> F;
  fsub : F -> F -> F;
  fmul : F -> F -> F;
  fdiv : F -> F -> F;
  fneg : F -> F;
  fpow : F -> Q -> F;           (* x ** q for a literal exponent q *)
  fsqrt : F -> F;               (* np.sqrt, inside np.linalg.norm *)
  farccos : F -> F;             (* np.arccos *)
  fsin : F -> F;                (* np.sin *)
  fabs : F -> F;                (* abs *)
  flt : F -> F -> bool;         (* <  *)
  fgt : F -> F -> bool;         (* >  *)
  fge : F -> F -> bool;         (* >= *)
  feq : F -> F -> bool          (* == *)
}.

Declare Scope fl_scope.
Delimit Scope fl_scope with fl.
Notation "x + y" := (fadd x y) : fl_scope.
Notation "x - y" := (fsub x y) : fl_scope.
Notation "x * y" := (fmul x y) : fl_scope.
Notation "x / y" := (fdiv x y) : fl_scope.
Notation "- x" := (fneg x) : fl_scope.
Notation "x ** q" := (fpow x q) (at level 30, right associativity) : fl_scope.
Notation "x <? y" := (flt x y) : fl_scope.
Notation "x >? y" := (fgt x y) : fl_scope.
Notation "x >=? y" := (fge x y) : fl_scope.
Notation "x =? y" := (feq x y) : fl_scope.

(** [x != y] is the negation of [x == y], also on NaN. *)
Definition fne {F} `{FloatOps F} (x y : F) : bool := negb (feq x y).

(** Exceptions the module raises. *)
Inductive Exn : Type :=
| NotImplementedError (msg : string)
| ImportError (msg : string)
| RuntimeError (msg : string).

(** ** Three-component arrays *)

Record Vec3 (F : Type) : Type := mk3 { c0 : F; c1 : F; c2 : F }.
Arguments mk3 {F} _ _ _.
Arguments c0 {F} _.
Arguments c1 {F} _.
Arguments c2 {F} _.

(** The nine values [keplerian_from_cartesian] returns, in order. *)
Record KepElements (F : Type) : Type := mkKep {
  k_a : F; k_e : F; k_period : F; k_incl : F; k_per0 : F; k_long_an : F;
  k_true_anom : F; k_mean_anom : F; k_t0_perpass : F
}.
Arguments mkKep {F} _ _ _ _ _ _ _ _ _.
Arguments k_a {F} _.
Arguments k_e {F} _.
Arguments k_period {F} _.
Arguments k_incl {F} _.
Arguments k_per0 {F} _.
Arguments k_long_an {F} _.
Arguments k_true_anom {F} _.
Arguments k_mean_anom {F} _.
Arguments k_t0_perpass {F} _.

Section Keplerian.
Context {F : Type} `{FloatOps F}.
Local Open Scope fl_scope.

Definition zero : F := lit 0.
Definition one : F := lit 1.
Definition two : F := lit 2.
Definition four : F := lit 4.
Definition tol_incl : F := lit (1 # 1000000000000).   (* 1e-12 *)
Definition tol_ecc : F := lit (1 # 1000000).          (* 1e-6 *)

(** np.linalg.norm, np.dot, np.cross and the scalar/array arithmetic. *)
Definition norm (a : Vec3 F) : F :=
  fsqrt (c0 a * c0 a + c1 a * c1 a + c2 a * c2 a).
Definition dot (a b : Vec3 F) : F :=
  c0 a * c0 b + c1 a * c1 b + c2 a * c2 b.
Definition cross (a b : Vec3 F) : Vec3 F :=
  mk3 (c1 a * c2 b - c2 a * c1 b)
      (c2 a * c0 b - c0 a * c2 b)
      (c0 a * c1 b - c1 a * c0 b).
Definition smul (k : F) (a : Vec3 F) : Vec3 F :=
  mk3 (k * c0 a) (k * c1 a) (k * c2 a).
Definition vsub (a b : Vec3 F) : Vec3 F :=
  mk3 (c0 a - c0 b) (c1 a - c1 b) (c2 a - c2 b).
Definition vdiv (a : Vec3 F) (k : F) : Vec3 F :=
  mk3 (c0 a / k) (c1 a / k) (c2 a / k).

(** The intermediate quantities of [keplerian_from_cartesian], named as
    its local variables. *)
Definition h_vec (r_v v_v : Vec3 F) : Vec3 F := cross r_v v_v.
Definition n_vec (r_v v_v : Vec3 F) : Vec3 F :=
  cross (mk3 zero zero one) (h_vec r_v v_v).
Definition e_vec (r_v v_v : Vec3 F) (mu : F) : Vec3 F :=
  vdiv (vsub (smul (norm v_v ** 2 - mu / norm r_v) r_v)
             (smul (dot r_v v_v) v_v)) mu.
Definition ecc (r_v v_v : Vec3 F) (mu : F) : F := norm (e_vec r_v v_v mu).
Definition inclination (r_v v_v : Vec3 F) : F :=
  farccos (c2 (h_vec r_v v_v) / norm (h_vec r_v v_v)).

(** [x = arccos(..); if cond: x = 2*np.pi - x] *)
Definition quadrant (cond : bool) (x : F) : F :=
  if cond then two * f_pi - x else x.

Definition keplerian_from_cartesian
    (positions velocities : Vec3 F) (mass_tot t0 G : F)
  : Exn + KepElements F :=
  let r_v := positions in
  let r := norm r_v in
  let v_v := velocities in
  let v := norm v_v in
  let mu := mass_tot * G in
  let h_v := h_vec r_v v_v in
  let h := norm h_v in
  let n_v := n_vec r_v v_v in
  let n := norm n_v in
  let e_v := e_vec r_v v_v mu in
  let e := norm e_v in
  if e >=? one then inl (NotImplementedError "ecc cannot be >= 1") else
  let E := v ** 2 / two - mu / r in
  let a := (- mu) / (two * E) in
  let incl := farccos (c2 h_v / h) in
  let '(long_an, per0) :=
    if fabs incl <? tol_incl then
      (zero, if e =? zero then zero else farccos (c0 e_v / e))
    else
      let long_an := quadrant (c1 n_v <? zero) (farccos (c0 n_v / n)) in
      let long_an := long_an + f_pi in
      (long_an, if e =? zero then zero else farccos (dot n_v e_v / (n * e)))
  in
  let '(per0, true_anom) :=
    if e <? tol_ecc then
      if fabs incl <? tol_incl then
        (per0, quadrant (c0 v_v >? zero) (farccos (c0 r_v / r)))
      else
        (per0, quadrant (dot n_v v_v >? zero) (farccos (dot n_v r_v / (n * r))))
    else
      let per0 := if (c2 e_v <? zero) && (e >? zero)
                  then two * f_pi - per0 else per0 in
      (per0, quadrant (dot r_v v_v <? zero) (farccos (dot e_v r_v / (e * r))))
  in
  let period := ((four * f_pi ** 2 * a ** 3) / (mass_tot * G)) ** (1 # 2) in
  let mean_anom := true_anom - e * fsin true_anom in
  let t0_perpass := t0 - (mean_anom * period) / (two * f_pi) in
  inr (mkKep a e period incl per0 long_an true_anom mean_anom t0_perpass).

End Keplerian.


(** ** The external interfaces of the N-body drivers

    rebound, reboundx, scipy, photodynam and the bundle are not part of the
    module; each is an interface whose operations the drivers call. *)

Record Particle (F : Type) : Type := mkParticle {
  p_m : F; p_x : F; p_y : F; p_z : F; p_vx : F; p_vy : F; p_vz : F
}.
Arguments mkParticle {F} _ _ _ _ _ _ _.
Arguments p_m {F} _.
Arguments p_x {F} _.
Arguments p_y {F} _.
Arguments p_z {F} _.
Arguments p_vx {F} _.
Arguments p_vy {F} _.
Arguments p_vz {F} _.

(** The fields of a [rebound.Orbit] that [calculate_euler] reads. *)
Record Orbit (F : Type) : Type := mkOrbit {
  o_d : F; o_a : F; o_P : F; o_f : F; o_omega : F; o_Omega : F;
  o_inc : F; o_e : F; o_T : F
}.
Arguments mkOrbit {F} _ _ _ _ _ _ _ _ _.
Arguments o_d {F} _.
Arguments o_a {F} _.
Arguments o_P {F} _.
Arguments o_f {F} _.
Arguments o_omega {F} _.
Arguments o_Omega {F} _.
Arguments o_inc {F} _.
Arguments o_e {F} _.
Arguments o_T {F} _.

(** A parameter value: a float, a bool or a string. *)
Inductive Value (F : Type) : Type :=
| VFloat (x : F)
| VBool (b : bool)
| VStr (s : string).
Arguments VFloat {F} _.
Arguments VBool {F} _.
Arguments VStr {F} _.

(** An array with one row per star. *)
Abbreviation Table F := (list (list F)).

(** [rebound.Simulation] (with [reboundx.Extras(sim).add_gr_full()]). *)
Class Rebound (F : Type) := {
  Simulation : Type;
  sim_new : Simulation;                                  (* rebound.Simulation() *)
  sim_t : Simulation -> F;                               (* sim.t *)
  sim_particles : Simulation -> list (Particle F);       (* sim.particles *)
  sim_set_integrator : Simulation -> string -> Simulation;
  sim_set_dt : Simulation -> F -> Simulation;
  sim_add : Simulation -> Particle F -> Simulation;      (* sim.add(m=.., x=.., ..) *)
  sim_integrate : Simulation -> F -> bool -> Simulation; (* sim.integrate(tmax, exact_finish_time) *)
  add_gr_full : Simulation -> Simulation;
  calculate_orbit : Particle F -> Particle F -> Orbit F  (* particle.calculate_orbit(primary=..) *)
}.

(** [scipy.optimize.newton(func, x0)]: the function it iterates has an
    effect on a state [S]; the call returns a root or raises. *)
Class Scipy (F : Type) := {
  newton : forall S : Type, (F -> S -> F * S) -> F -> S -> (Exn + F) * S
}.
Arguments newton {F _ S} _ _ _.

(** What [photodynam.do_dynamics] returns: the dictionary [d]; every entry
    but ['t'] is a two-dimensional array indexed by time, then by body (or
    orbit). *)
Record ndarray2 (F : Type) : Type := mkArray { ncols : nat; rows : Table F }.
Arguments mkArray {F} _ _.
Arguments ncols {F} _.
Arguments rows {F} _.

Record PhotodynamOut (F : Type) : Type := mkPhotodynamOut {
  d_t : list F;
  d_x : ndarray2 F; d_y : ndarray2 F; d_z : ndarray2 F;
  d_vx : ndarray2 F; d_vy : ndarray2 F; d_vz : ndarray2 F;
  d_kepl_a : Table F; d_kepl_e : Table F; d_kepl_in : Table F;
  d_kepl_o : Table F; d_kepl_ln : Table F; d_kepl_ma : Table F
}.
Arguments d_t {F} _.
Arguments d_x {F} _.
Arguments d_y {F} _.
Arguments d_z {F} _.
Arguments d_vx {F} _.
Arguments d_vy {F} _.
Arguments d_vz {F} _.
Arguments d_kepl_a {F} _.
Arguments d_kepl_e {F} _.
Arguments d_kepl_in {F} _.
Arguments d_kepl_o {F} _.
Arguments d_kepl_ln {F} _.
Arguments d_kepl_ma {F} _.

Class Photodynam (F : Type) := {
  do_dynamics :
    list F -> list F -> list F -> list F -> list F -> list F -> list F ->
    list F -> F -> F -> F -> bool -> bool -> PhotodynamOut F
}.

(** Positions and velocities, one row per star. *)
Record Arrays (F : Type) : Type := mkArrays {
  xs : Table F; ys : Table F; zs : Table F;
  vxs : Table F; vys : Table F; vzs : Table F
}.
Arguments mkArrays {F} _ _ _ _ _ _.
Arguments xs {F} _.
Arguments ys {F} _.
Arguments zs {F} _.
Arguments vxs {F} _.
Arguments vys {F} _.
Arguments vzs {F} _.

(** The bundle [b], its hierarchy and its compute options, and
    [keplerian.dynamics_from_bundle]. *)
Class BundleAPI (F : Type) := {
  Bundle : Type;
  run_delayed_constraints : Bundle -> Bundle;
  (* b.get_compute(compute, check_visible=False, force_ps=True)
      .get_value(qualifier, check_visible=False, **kwargs) *)
  compute_get_value :
    Bundle -> option string -> string -> gmap string (Value F) -> Value F;
  get_stars : Bundle -> list string;                      (* hier.get_stars() *)
  get_orbits : Bundle -> list string;                     (* hier.get_orbits() *)
  get_stars_of_sibling_of : Bundle -> string -> list string;
  (* b.get_value(qualifier, unit, component=.., context=..) *)
  get_value : Bundle -> string -> string -> option string -> string -> F;
  keplerian_dynamics_from_bundle : Bundle -> list F -> option string -> Arrays F
}.

(** Module-level constants: the two import flags and the unit conversions. *)
Record Env (F : Type) : Type := mkEnv {
  _can_rebound : bool;
  _can_reboundx : bool;
  au_to_solrad : F;            (* (1*u.AU).to(u.solRad).value *)
  c_AU_d : F;                  (* c.c.to(u.AU/u.d).value *)
  G_solRad : F;                (* c.G.to('solRad3 / (Msun d2)').value *)
  G_AU : F                     (* c.G.to('AU3 / (Msun d2)').value *)
}.
Arguments mkEnv {F} _ _ _ _ _ _.
Arguments _can_rebound {F} _.
Arguments _can_reboundx {F} _.
Arguments au_to_solrad {F} _.
Arguments c_AU_d {F} _.
Arguments G_solRad {F} _.
Arguments G_AU {F} _.

(** ** [dynamics_from_bundle_rebound] *)

(** The twelve values [calculate_euler] returns. *)
Record Euler (F : Type) : Type := mkEuler {
  eu_d : F; eu_F : F; eu_etheta : F; eu_elongan : F; eu_eincl : F;
  eu_period : F; eu_sma : F; eu_ecc : F; eu_per0 : F; eu_long_an : F;
  eu_incl : F; eu_t0_perpass : F
}.
Arguments mkEuler {F} _ _ _ _ _ _ _ _ _ _ _ _.
Arguments eu_d {F} _.
Arguments eu_F {F} _.
Arguments eu_etheta {F} _.
Arguments eu_elongan {F} _.
Arguments eu_eincl {F} _.
Arguments eu_period {F} _.
Arguments eu_sma {F} _.
Arguments eu_ecc {F} _.
Arguments eu_per0 {F} _.
Arguments eu_long_an {F} _.
Arguments eu_incl {F} _.
Arguments eu_t0_perpass {F} _.

(** The twelve Roche/Euler arrays, one row per star. *)
Record EulerArrays (F : Type) : Type := mkEulerArrays {
  ds : Table F; Fs : Table F; ethetas : Table F; elongans : Table F;
  eincls : Table F; periods : Table F; smas : Table F; eccs : Table F;
  per0s : Table F; long_ans : Table F; incls : Table F; t0_perpasses : Table F
}.
Arguments mkEulerArrays {F} _ _ _ _ _ _ _ _ _ _ _ _.
Arguments ds {F} _.
Arguments Fs {F} _.
Arguments ethetas {F} _.
Arguments elongans {F} _.
Arguments eincls {F} _.
Arguments periods {F} _.
Arguments smas {F} _.
Arguments eccs {F} _.
Arguments per0s {F} _.
Arguments long_ans {F} _.
Arguments incls {F} _.
Arguments t0_perpasses {F} _.

(** What the rebound driver returns. *)
Record Output (F : Type) : Type := mkOutput {
  out_times : list F;
  out_pos : Arrays F;
  out_euler : option (EulerArrays F)     (* only with return_roche_euler *)
}.
Arguments mkOutput {F} _ _ _.
Arguments out_times {F} _.
Arguments out_pos {F} _.
Arguments out_euler {F} _.

(** A call ends with a value or an exception; [integrations] lists, in
    order, the target time of every [sim.integrate] call it made. *)
Record Outcome (F : Type) : Type := mkOutcome {
  result : Exn + Output F;
  integrations : list F
}.
Arguments mkOutcome {F} _ _.
Arguments result {F} _.
Arguments integrations {F} _.

(** [for x in l: body(x)], stopping at the first exception. *)
Fixpoint for_each {A St : Type} (l : list A)
    (body : A -> St -> option Exn * St) (st : St) : option Exn * St :=
  match l with
  | [] => (None, st)
  | a :: l' =>
      match body a st with
      | (None, st') => for_each l' body st'
      | (Some ex, st') => (Some ex, st')
      end
  end.

Fixpoint enumerate_from {A : Type} (k : nat) (l : list A) : list (nat * A) :=
  match l with
  | [] => []
  | a :: l' => (k, a) :: enumerate_from (S k) l'
  end.

Definition enumerate {A : Type} (l : list A) : list (nat * A) :=
  enumerate_from 0 l.

(** [starrefs.index(s)] (for an entry of the list). *)
Fixpoint index_of (s : string) (l : list string) : nat :=
  match l with
  | [] => 0
  | x :: l' => if String.eqb x s then 0 else S (index_of s l')
  end.

Section NBody.
Context {F : Type} `{FloatOps F} `{Rebound F} `{Scipy F} `{BundleAPI F}.
Variable env : Env F.
Local Open Scope fl_scope.

(** Reading a parameter value as the driver uses it: [if ltte:] and
    [if gr:] (truth value), [sim.dt = stepsize] (a float),
    [sim.integrator = integrator] (a string). *)
Definition as_bool (v : Value F) : bool :=
  match v with
  | VBool b => b
  | VFloat x => fne x zero
  | VStr s => negb (String.eqb s "")
  end.

Definition as_float (v : Value F) : F :=
  match v with
  | VFloat x => x
  | VBool b => if b then one else zero
  | VStr _ => zero
  end.

Definition as_str (v : Value F) : string :=
  match v with
  | VStr s => s
  | _ => ""
  end.

(** The simulation together with the log of its [integrate] calls. *)
Record Session : Type := mkSession { sim : Simulation; trace : list F }.

Definition integrate (s : Session) (t : F) (exact_finish_time : bool) : Session :=
  mkSession (sim_integrate (sim s) t exact_finish_time) (trace s ++ [t]).

Definition default_particle : Particle F :=
  mkParticle zero zero zero zero zero zero zero.

(** [sim.particles[j]], for [j] in [range(sim.N)]. *)
Definition particle_at (s : Session) (j : nat) : Particle F :=
  nth j (sim_particles (sim s)) default_particle.

(** The closure [residual] of [particle_ltte]. *)
Definition residual (particle_N : nat) (t_obs : F) (t : F) (s : Session)
  : F * Session :=
  let s := if fne (sim_t (sim s)) t then integrate s t true else s in
  let ltte_dt := p_z (particle_at s particle_N) / c_AU_d env in
  let t_barycenter := t - ltte_dt in
  (t_barycenter - t_obs, s).

Definition particle_ltte (s : Session) (particle_N : nat) (t_obs : F)
  : (Exn + Particle F) * Session :=
  match newton (residual particle_N t_obs) t_obs s with
  | (inl ex, s) => (inl ex, s)
  | (inr t_barycenter, s) =>
      let s := if fne (sim_t (sim s)) t_barycenter
               then integrate s t_barycenter true else s in
      (inr (particle_at s particle_N), s)
  end.

(** Python's [sum]: a left fold from 0. *)
Definition fsum (l : list F) : F := fold_left fadd l zero.

(** [1./m] is a division of Python floats: it raises [ZeroDivisionError]
    when there is no particle or the masses sum to 0.  The division here is
    total: the function is meant for a total mass other than 0. *)
Definition com_phantom_particle (particles : list (Particle F)) : Particle F :=
  let m := fsum (map p_m particles) in
  let x := one / m * fsum (map (fun p => p_m p * p_x p) particles) in
  let y := one / m * fsum (map (fun p => p_m p * p_y p) particles) in
  let z := one / m * fsum (map (fun p => p_m p * p_z p) particles) in
  let vx := one / m * fsum (map (fun p => p_m p * p_vx p) particles) in
  let vy := one / m * fsum (map (fun p => p_m p * p_vy p) particles) in
  let vz := one / m * fsum (map (fun p => p_m p * p_vz p) particles) in
  mkParticle m x y z vx vy vz.

(** As in [com_phantom_particle], the quotients [orbit.d / orbit.a] and
    [orbit.P / rotperiods[j]] are total here, where Python raises
    [ZeroDivisionError] on a zero divisor. *)
Definition calculate_euler (sibling_Ns : list (list nat)) (rotperiods : list F)
    (s : Session) (j : nat) : Euler F :=
  let particle := particle_at s j in
  let sibling_particles := map (particle_at s) (nth j sibling_Ns []) in
  let com_particle := com_phantom_particle sibling_particles in
  let orbit := calculate_orbit particle com_particle in
  let d := o_d orbit / o_a orbit in
  let F' := o_P orbit / nth j rotperiods zero in
  let etheta := o_f orbit + o_omega orbit + f_pi in
  let elongan := o_Omega orbit - f_pi in
  let eincl := o_inc orbit in
  let period := o_P orbit in
  let sma := o_a orbit in
  let ecc := o_e orbit in
  let per0 := o_omega orbit in
  let long_an := o_Omega orbit - f_pi in
  let incl := o_inc orbit in
  let t0_perpass := o_T orbit in
  mkEuler d F' etheta elongan eincl period sma ecc per0 long_an incl t0_perpass.

(** [tbl[j][i] = v] *)
Definition set2 (tbl : Table F) (j i : nat) (v : F) : Table F :=
  alter (fun row => <[i := v]> row) j tbl.

(** [[np.zeros(times.shape) for j in range(sim.N)]] *)
Definition zeros (N ntimes : nat) : Table F :=
  replicate N (replicate ntimes zero).

Definition store_euler (ea : EulerArrays F) (j i : nat) (eu : Euler F)
  : EulerArrays F :=
  mkEulerArrays
    (set2 (ds ea) j i (eu_d eu)) (set2 (Fs ea) j i (eu_F eu))
    (set2 (ethetas ea) j i (eu_etheta eu)) (set2 (elongans ea) j i (eu_elongan eu))
    (set2 (eincls ea) j i (eu_eincl eu)) (set2 (periods ea) j i (eu_period eu))
    (set2 (smas ea) j i (eu_sma eu)) (set2 (eccs ea) j i (eu_ecc eu))
    (set2 (per0s ea) j i (eu_per0 eu)) (set2 (long_ans ea) j i (eu_long_an eu))
    (set2 (incls ea) j i (eu_incl eu)) (set2 (t0_perpasses ea) j i (eu_t0_perpass eu)).

Definition store_particle (a : Arrays F) (j i : nat) (particle : Particle F)
  : Arrays F :=
  mkArrays
    (set2 (xs a) j i (p_x particle)) (set2 (ys a) j i (p_y particle))
    (set2 (zs a) j i (p_z particle)) (set2 (vxs a) j i (p_vx particle))
    (set2 (vys a) j i (p_vy particle)) (set2 (vzs a) j i (p_vz particle)).

(** The variables the time loop updates. *)
Record LoopState : Type := mkLoop {
  l_sess : Session;
  l_pos : Arrays F;
  l_euler : EulerArrays F
}.

(** The body of [for j in range(sim.N)]. *)
Definition body_step (return_roche_euler ltte : bool)
    (sibling_Ns : list (list nat)) (rotperiods : list F)
    (i : nat) (time : F) (j : nat) (st : LoopState) : option Exn * LoopState :=
  let ea :=
    if return_roche_euler
    then store_euler (l_euler st) j i
           (calculate_euler sibling_Ns rotperiods (l_sess st) j)
    else l_euler st in
  let '(r, s) :=
    if ltte then particle_ltte (l_sess st) j time
    else (inr (particle_at (l_sess st) j), l_sess st) in
  match r with
  | inl ex => (Some ex, mkLoop s (l_pos st) ea)
  | inr particle => (None, mkLoop s (store_particle (l_pos st) j i particle) ea)
  end.

(** The body of [for i,time in enumerate(times)]. *)
Definition time_step (return_roche_euler ltte : bool)
    (sibling_Ns : list (list nat)) (rotperiods : list F)
    (it : nat * F) (st : LoopState) : option Exn * LoopState :=
  let '(i, time) := it in
  let s := integrate (l_sess st) time true in
  for_each (seq 0 (length (sim_particles (sim s))))
           (body_step return_roche_euler ltte sibling_Ns rotperiods i time)
           (mkLoop s (l_pos st) (l_euler st)).

(** [xs[i][0]] of the initial Keplerian state. *)
Definition at0 (tbl : Table F) (i : nat) : F := nth 0 (nth i tbl []) zero.

(** The body of [for i,starref in enumerate(starrefs)]: add the particle
    and record the indices of its sibling's stars. *)
Definition add_star (b : Bundle) (starrefs : list string) (init : Arrays F)
    (acc : Simulation * list (list nat)) (it : nat * string)
  : Simulation * list (list nat) :=
  let '(sm, sibling_Ns) := acc in
  let '(i, starref) := it in
  let mass := get_value b "mass" "solMass" (Some starref) "component"
              * G_solRad env in
  let sm := sim_add sm (mkParticle mass (at0 (xs init) i) (at0 (ys init) i)
                          (at0 (zs init) i) (at0 (vxs init) i)
                          (at0 (vys init) i) (at0 (vzs init) i)) in
  let sibling_starrefs := get_stars_of_sibling_of b starref in
  (sm, sibling_Ns ++ [map (fun s => index_of s starrefs) sibling_starrefs]).

(** An exception raised before [rebound.Simulation()] is created. *)
Definition raise (ex : Exn) : Outcome F := mkOutcome (inl ex) [].

(** The end of the call: an exception of the loop escapes, otherwise the
    arrays are returned (with the Roche/Euler arrays when asked for). *)
Definition finish (return_roche_euler : bool) (times : list F)
    (r : option Exn * LoopState) : Outcome F :=
  match r with
  | (Some ex, st) => mkOutcome (inl ex) (trace (l_sess st))
  | (None, st) =>
      mkOutcome
        (inr (mkOutput times (l_pos st)
                (if return_roche_euler then Some (l_euler st) else None)))
        (trace (l_sess st))
  end.

Definition dynamics_from_bundle_rebound (b : Bundle) (times : list F)
    (compute : option string) (return_roche_euler : bool)
    (kwargs : gmap string (Value F)) : Outcome F :=
  let b := run_delayed_constraints b in
  let stepsize := as_float (compute_get_value b compute "stepsize" kwargs) in
  let ltte := as_bool (compute_get_value b compute "ltte" kwargs) in
  let gr := as_bool (compute_get_value b compute "gr" kwargs) in
  let integrator := as_str (compute_get_value b compute "integrator" kwargs) in
  let starrefs := get_stars b in
  let t0 := get_value b "t0" "d" None "system" in
  if negb (_can_rebound env) then
    raise (ImportError "rebound 3.4+ is not installed")
  else if gr && negb (_can_reboundx env) then
    raise (ImportError "reboundx is not installed (required for gr effects)")
  else
    let init := keplerian_dynamics_from_bundle b [t0] compute in
    let times := map (fun t => t - t0) times in
    let sm := sim_new in
    let sm := if gr then add_gr_full sm else sm in
    let sm := sim_set_integrator sm integrator in
    let sm := sim_set_dt sm stepsize in
    let rotperiods :=
      if return_roche_euler
      then map (fun component =>
                  get_value b "period" "d" (Some component) "component") starrefs
      else [] in
    let '(sm, sibling_Ns) :=
      fold_left (add_star b starrefs init) (enumerate starrefs) (sm, []) in
    let N := length (sim_particles sm) in
    let z := zeros N (length times) in
    let pos := mkArrays z z z z z z in
    let ea := if return_roche_euler
              then mkEulerArrays z z z z z z z z z z z z
              else mkEulerArrays [] [] [] [] [] [] [] [] [] [] [] [] in
    finish return_roche_euler times
      (for_each (enumerate times)
                (time_step return_roche_euler ltte sibling_Ns rotperiods)
                (mkLoop (mkSession sm []) pos ea)).

End NBody.

(** ** The parts of [dynamics_from_bundle_rebound], for stating what it
    computes *)

(** What the driver relies on from rebound: a new simulation has no
    particles, [sim.add] appends one, the settings leave the particles
    alone, and [sim.integrate] keeps their number. *)
Record ReboundLaws (F : Type) `{Rebound F} : Prop := mkReboundLaws {
  new_empty : sim_particles sim_new = [];
  add_appends :
    forall s p, sim_particles (sim_add s p) = sim_particles s ++ [p];
  set_integrator_keeps :
    forall s name, sim_particles (sim_set_integrator s name) = sim_particles s;
  set_dt_keeps : forall s dt, sim_particles (sim_set_dt s dt) = sim_particles s;
  gr_keeps : forall s, sim_particles (add_gr_full s) = sim_particles s;
  integrate_keeps_count :
    forall s t e,
      length (sim_particles (sim_integrate s t e)) = length (sim_particles s)
}.
Arguments new_empty {F _} _.
Arguments add_appends {F _} _ _ _.
Arguments set_integrator_keeps {F _} _ _ _.
Arguments set_dt_keeps {F _} _ _ _.
Arguments gr_keeps {F _} _ _.
Arguments integrate_keeps_count {F _} _ _ _ _.

Section NBodyParts.
Context {F : Type} `{FloatOps F} `{Rebound F} `{Scipy F} `{BundleAPI F}.
Variable env : Env F.
Local Open Scope fl_scope.

(** The simulation and [sibling_Ns] that [dynamics_from_bundle_rebound]
    has built when it reaches the loop over [times]. *)
Definition initial_simulation (b : Bundle) (compute : option string)
    (kwargs : gmap string (Value F)) : Simulation * list (list nat) :=
  let b := run_delayed_constraints b in
  let stepsize := as_float (compute_get_value b compute "stepsize" kwargs) in
  let gr := as_bool (compute_get_value b compute "gr" kwargs) in
  let integrator := as_str (compute_get_value b compute "integrator" kwargs) in
  let starrefs := get_stars b in
  let t0 := get_value b "t0" "d" None "system" in
  let init := keplerian_dynamics_from_bundle b [t0] compute in
  let sm := sim_new in
  let sm := if gr then add_gr_full sm else sm in
  let sm := sim_set_integrator sm integrator in
  let sm := sim_set_dt sm stepsize in
  fold_left (add_star env b starrefs init) (enumerate starrefs) (sm, []).

(** The sessions after [sim.integrate(time, exact_finish_time=True)] for
    each of [times] in turn. *)
Fixpoint scan_integrate (s : Session) (times : list F) : list Session :=
  match times with
  | [] => []
  | t :: times' =>
      let s' := integrate s t true in
      s' :: scan_integrate s' times'
  end.

(** A list of [N] arrays of [n] entries each. *)
Definition shaped (N n : nat) (tbl : Table F) : Prop :=
  length tbl = N /\ Forall (fun row => length row = n) tbl.

Definition arrays_shaped (N n : nat) (a : Arrays F) : Prop :=
  shaped N n (xs a) /\ shaped N n (ys a) /\ shaped N n (zs a)
  /\ shaped N n (vxs a) /\ shaped N n (vys a) /\ shaped N n (vzs a).

Definition euler_shaped (N n : nat) (ea : EulerArrays F) : Prop :=
  shaped N n (ds ea) /\ shaped N n (Fs ea) /\ shaped N n (ethetas ea)
  /\ shaped N n (elongans ea) /\ shaped N n (eincls ea)
  /\ shaped N n (periods ea) /\ shaped N n (smas ea) /\ shaped N n (eccs ea)
  /\ shaped N n (per0s ea) /\ shaped N n (long_ans ea)
  /\ shaped N n (incls ea) /\ shaped N n (t0_perpasses ea).

(** [tbl[j][i]] *)
Definition cell (tbl : Table F) (j i : nat) : option F :=
  match tbl !! j with
  | Some row => row !! i
  | None => None
  end.

(** The table whose row [j] holds [g s j] for each of the sessions [ss],
    followed by [pad] zeros not yet overwritten. *)
Definition column_table (N : nat) (g : Session -> nat -> F) (ss : list Session)
    (pad : nat) : Table F :=
  map (fun j => map (fun s => g s j) ss ++ replicate pad zero) (seq 0 N).

Definition recorded (N : nat) (ss : list Session) (pad : nat) : Arrays F :=
  let col (f : Particle F -> F) :=
    column_table N (fun s j => f (particle_at s j)) ss pad in
  mkArrays (col p_x) (col p_y) (col p_z) (col p_vx) (col p_vy) (col p_vz).

Definition recorded_euler (N : nat) (sibling_Ns : list (list nat))
    (rotperiods : list F) (ss : list Session) (pad : nat) : EulerArrays F :=
  let col (f : Euler F -> F) :=
    column_table N (fun s j => f (calculate_euler sibling_Ns rotperiods s j))
                 ss pad in
  mkEulerArrays (col eu_d) (col eu_F) (col eu_etheta) (col eu_elongan)
                (col eu_eincl) (col eu_period) (col eu_sma) (col eu_ecc)
                (col eu_per0) (col eu_long_an) (col eu_incl)
                (col eu_t0_perpass).

End NBodyParts.

(** ** [dynamics_bs], [dynamics_from_bundle_bs] and [dynamics_from_bundle] *)

(** The instantaneous elements [dynamics_bs] adds with
    [return_roche_euler]; [inst_ds] and [inst_Fs] are arrays of [None]. *)
Record BsEuler (F : Type) : Type := mkBsEuler {
  inst_ds : list (list (option F)); inst_Fs : list (list (option F));
  inst_ethetas : Table F; inst_elongans : Table F; inst_eincls : Table F;
  inst_periods : Table F; inst_smas : Table F; inst_eccs : Table F;
  inst_per0s : Table F; inst_long_ans : Table F; inst_incls : Table F;
  inst_t0_perpasses : Table F
}.
Arguments mkBsEuler {F} _ _ _ _ _ _ _ _ _ _ _ _.

Record BsOutput (F : Type) : Type := mkBsOutput {
  bs_ts : list F;
  bs_xs : ndarray2 F; bs_ys : ndarray2 F; bs_zs : ndarray2 F;
  bs_vxs : ndarray2 F; bs_vys : ndarray2 F; bs_vzs : ndarray2 F;
  bs_inst : option (BsEuler F)
}.
Arguments mkBsOutput {F} _ _ _ _ _ _ _ _.
Arguments bs_ts {F} _.
Arguments bs_xs {F} _.
Arguments bs_ys {F} _.
Arguments bs_zs {F} _.
Arguments bs_vxs {F} _.
Arguments bs_vys {F} _.
Arguments bs_vzs {F} _.
Arguments bs_inst {F} _.

Section Photodynam.
Context {F : Type} `{FloatOps F} `{Photodynam F} `{BundleAPI F}.
Variable env : Env F.
Local Open Scope fl_scope.

(** [a.T], [k * a] and [a * k] on a two-dimensional array. *)
Definition transpose (a : ndarray2 F) : ndarray2 F :=
  mkArray (length (rows a))
          (map (fun j => map (fun row => nth j row zero) (rows a))
               (seq 0 (ncols a))).

Definition scale_l (k : F) (a : ndarray2 F) : ndarray2 F :=
  mkArray (ncols a) (map (map (fun v => k * v)) (rows a)).

Definition scale_r (a : ndarray2 F) (k : F) : ndarray2 F :=
  mkArray (ncols a) (map (map (fun v => v * k)) (rows a)).

(** [a[i][j]] of a two-dimensional array. *)
Definition item (a : ndarray2 F) (i j : nat) : option F :=
  match rows a !! i with
  | Some row => row !! j
  | None => None
  end.

(** Every row of a two-dimensional array has [ncols] entries. *)
Definition rectangular (a : ndarray2 F) : Prop :=
  Forall (fun row => length row = ncols a) (rows a).

(** [d[key][ti][oi if oi==0 else oi-1]]; a read out of range, where Python
    raises [IndexError], gives 0 here (see [kepl_in_range]). *)
Definition kepl (tbl : Table F) (ti oi : nat) : F :=
  nth (if Nat.eqb oi 0 then oi else oi - 1) (nth ti tbl []) zero.

Definition _compute_period (sma mass_tot G : F) : F :=
  ((four * f_pi ** 2 * (sma / au_to_solrad env) ** 3) / (mass_tot * G)) ** (1 # 2).

Definition _compute_t0_perpass (mean_anom period t0 : F) : F :=
  t0 - (mean_anom * period) / (two * f_pi).

Definition dynamics_bs (times masses smas eccs incls per0s long_ans mean_anoms : list F)
    (t0 vgamma stepsize orbiterror : F) (ltte return_roche_euler : bool)
  : BsOutput F :=
  let d := do_dynamics times masses smas eccs incls per0s long_ans mean_anoms
             t0 stepsize orbiterror ltte return_roche_euler in
  let nobjects := length masses in
  let ntimes := length times in
  let ts := d_t d in
  let xs := scale_r (scale_l (lit (-1)) (transpose (d_x d))) (au_to_solrad env) in
  let ys := scale_r (scale_l (lit (-1)) (transpose (d_y d))) (au_to_solrad env) in
  let zs := scale_r (transpose (d_z d)) (au_to_solrad env) in
  let vxs := scale_r (scale_l (lit (-1)) (transpose (d_vx d))) (au_to_solrad env) in
  let vys := scale_r (scale_l (lit (-1)) (transpose (d_vy d))) (au_to_solrad env) in
  let vzs := scale_r (transpose (d_vz d)) (au_to_solrad env) in
  if return_roche_euler then
    let per_object (f : nat -> nat -> F) : Table F :=
      map (fun oi => map (fun ti => f ti oi) (seq 0 ntimes)) (seq 0 nobjects) in
    let inst_smas :=
      map (map (fun v => v * au_to_solrad env)) (per_object (kepl (d_kepl_a d))) in
    let inst_eccs := per_object (kepl (d_kepl_e d)) in
    let inst_incls := per_object (kepl (d_kepl_in d)) in
    let inst_per0s := per_object (kepl (d_kepl_o d)) in
    let inst_long_ans := per_object (kepl (d_kepl_ln d)) in
    let inst_mean_anoms := per_object (kepl (d_kepl_ma d)) in
    let mass_tots :=
      map (fun oi => fold_left fadd
                       (take (if Nat.eqb oi 0 then 2 else oi + 1) masses) zero)
          (seq 0 nobjects) in
    let inst_periods :=
      zip_with (fun smas mass_tot =>
                  map (fun sma => _compute_period sma mass_tot one) smas)
               inst_smas mass_tots in
    let inst_t0_perpasses :=
      zip_with (fun mean_anoms periods =>
                  zip_with (fun mean_anom period =>
                              _compute_t0_perpass mean_anom period zero)
                           mean_anoms periods)
               inst_mean_anoms inst_periods in
    let inst_ds := replicate nobjects (replicate ntimes None) in
    let inst_Fs := replicate nobjects (replicate ntimes None) in
    let inst_ethetas :=
      per_object (fun ti oi => kepl (d_kepl_o d) ti oi + kepl (d_kepl_ma d) ti oi
                               + f_pi / two) in
    let inst_elongans :=
      per_object (fun ti oi => kepl (d_kepl_ln d) ti oi
                               + nth (if Nat.eqb oi 0 then 0 else oi - 1)
                                     long_ans zero) in
    let inst_eincls :=
      per_object (fun ti oi => kepl (d_kepl_in d) ti oi + f_pi
                               - nth (if Nat.eqb oi 0 then 0 else oi - 1)
                                     incls zero) in
    mkBsOutput ts xs ys zs vxs vys vzs
      (Some (mkBsEuler inst_ds inst_Fs inst_ethetas inst_elongans inst_eincls
               inst_periods inst_smas inst_eccs inst_per0s inst_long_ans
               inst_incls inst_t0_perpasses))
  else
    mkBsOutput ts xs ys zs vxs vys vzs None.

(** The values [t0_perpasses] and [periods], which the function reads from
    the bundle and does not use, are left out. *)
Definition dynamics_from_bundle_bs (b : Bundle) (times : list F)
    (compute : option string) (return_roche_euler : bool)
    (kwargs : gmap string (Value F)) : BsOutput F :=
  let stepsize := lit (1 # 100) in
  let orbiterror := lit (1 # 10000000000000000) in
  let ltte := as_bool (compute_get_value b compute "ltte" kwargs) in
  let starrefs := get_stars b in
  let orbitrefs := get_orbits b in
  let per_orbit (qualifier unit : string) : list F :=
    map (fun component => get_value b qualifier unit (Some component) "component")
        orbitrefs in
  let masses :=
    map (fun component =>
           get_value b "mass" "solMass" (Some component) "component" * G_AU env)
        starrefs in
  let smas := per_orbit "sma" "AU" in
  let eccs := per_orbit "ecc" "" in
  let incls := per_orbit "incl" "rad" in
  let per0s := per_orbit "per0" "rad" in
  let long_ans := per_orbit "long_an" "rad" in
  let vgamma := get_value b "vgamma" "solRad/d" None "system" in
  let t0 := get_value b "t0" "d" None "system" in
  let mean_anoms := per_orbit "mean_anom" "rad" in
  dynamics_bs times masses smas eccs incls per0s long_ans mean_anoms
              t0 vgamma stepsize orbiterror ltte return_roche_euler.

Definition dynamics_from_bundle (b : Bundle) (times : list F)
    (compute : option string) (return_roche_euler : bool)
    (kwargs : gmap string (Value F)) : BsOutput F :=
  dynamics_from_bundle_bs b times compute return_roche_euler kwargs.

End Photodynam.

(** The first two entries of a list exist and are equal. *)
Definition same_first_rows {A : Type} (tbl : list A) : Prop :=
  exists row, tbl !! 0%nat = Some row /\ tbl !! 1%nat = Some row.

(** A [kepl_*] table of photodynam with a row for each of [ntimes] times
    and, in each row, an entry for each of [norbits] orbits: every read
    [d[key][ti][oi if oi==0 else oi-1]] of [dynamics_bs] is in range. *)
Definition kepl_in_range {F : Type} (ntimes norbits : nat) (tbl : Table F)
  : Prop :=
  forall ti, (ti < ntimes)%nat ->
    exists row, tbl !! ti = Some row /\ (norbits <= length row)%nat.

(** ** [_ensure_tuple] *)

Unset Elimination Schemes.

(** The Python values [_ensure_tuple] tells apart: a tuple, a list, a numpy
    array, and any other object (a number, a string, a dict, ...).  A 0-d
    array holds one value, its scalar: a number, or for the dtypes [str],
    [bytes] and [object] any value; an n-d array is a sequence of
    (n-1)-d arrays. *)
Inductive PyValue (A : Type) : Type :=
  | PyTuple (items : list (PyValue A))
  | PyList (items : list (PyValue A))
  | PyArray (a : NdArray A)
  | PyOther (x : A)
with NdArray (A : Type) : Type :=
  | Nd0 (scalar : PyValue A)
  | NdN (items : list (NdArray A)).
Arguments PyTuple {A} _.
Arguments PyList {A} _.
Arguments PyArray {A} _.
Arguments PyOther {A} _.
Arguments Nd0 {A} _.
Arguments NdN {A} _.

Set Elimination Schemes.

(** The exceptions of [_ensure_tuple]: its own [raise NotImplementedError]
    and the [TypeError] of [tuple(x)] on a value that is not iterable. *)
Inductive TupleError : Type :=
  | TupleNotImplementedError
  | TupleTypeError.

Section EnsureTuple.
Context {A : Type}.

(** What iterating over an object that is not a tuple, a list or an array
    yields: its items ([Some], for a string its characters), or [None] for
    an object that is not iterable (a number). *)
Variable iterate : A -> option (list (PyValue A)).

(** [a.tolist()]: nested lists; the scalar itself for a 0-d array. *)
Fixpoint tolist (a : NdArray A) : PyValue A :=
  match a with
  | Nd0 scalar => scalar
  | NdN items => PyList (map tolist items)
  end.

(** An entry of the outermost axis, as iterating over the array gives it:
    the scalar for an entry of a 1-d array, an array otherwise. *)
Definition nd_item (a : NdArray A) : PyValue A :=
  match a with
  | Nd0 scalar => scalar
  | NdN _ => PyArray a
  end.

(** The items [tuple(v)] collects, [None] where it raises [TypeError]
    (an object that is not iterable, a 0-d array). *)
Definition py_iter (v : PyValue A) : option (list (PyValue A)) :=
  match v with
  | PyTuple items => Some items
  | PyList items => Some items
  | PyArray (NdN items) => Some (map nd_item items)
  | PyArray (Nd0 _) => None
  | PyOther x => iterate x
  end.

(** [tuple(v)] *)
Definition py_tuple (v : PyValue A) : TupleError + PyValue A :=
  match py_iter v with
  | Some items => inr (PyTuple items)
  | None => inl TupleTypeError
  end.

Definition _ensure_tuple (item : PyValue A) : TupleError + PyValue A :=
  match item with
  | PyTuple _ => inr item
  | PyList _ => py_tuple item
  | PyArray a => py_tuple (tolist a)
  | PyOther _ => inl TupleNotImplementedError
  end.

End EnsureTuple.

(** Python strings as the other objects: iterating over a string yields
    its characters, each a string of length one. *)
Fixpoint str_chars (s : string) : list string :=
  match s with
  | EmptyString => []
  | String c s' => String c EmptyString :: str_chars s'
  end.

Definition str_items (s : string) : option (list (PyValue string)) :=
  Some (map PyOther (str_chars s)).

(** ** The instance over the real numbers, and stand-ins for the external
    libraries used to run the drivers on concrete inputs *)

Module RealModel.
Local Open Scope R_scope.

(** [x ** q]: a positive integer exponent is a repeated product, [0.5] a
    square root. *)
Definition R_pow (x : R) (q : Q) : R :=
  match q with
  | Qmake (Zpos p) 1%positive => x ^ Pos.to_nat p
  | Qmake 1%Z 2%positive => sqrt x
  | _ => Rpower x (Q2R q)
  end.

(** Exact real arithmetic.  [Rdiv] and [acos] are total ([x / 0 = 0], and
    [acos] is defined outside [[-1, 1]]) where numpy gives [inf] or [nan]:
    the instance stands for the program on inputs where no divisor it
    meets is 0. *)
#[export] Instance R_ops : FloatOps R := {|
  lit := Q2R;
  f_pi := PI;
  fadd := Rplus;
  fsub := Rminus;
  fmul := Rmult;
  fdiv := Rdiv;
  fneg := Ropp;
  fpow := R_pow;
  fsqrt := sqrt;
  farccos := acos;
  fsin := sin;
  fabs := Rabs;
  flt := fun x y => if Rlt_dec x y then true else false;
  fgt := fun x y => if Rgt_dec x y then true else false;
  fge := fun x y => if Rge_dec x y then true else false;
  feq := fun x y => if Req_dec_T x y then true else false
|}.

(** Two states of a body around a unit point mass ([mass_tot = G = 1]) at
    distance 1 on the x-axis, with radial speed [delta] and unit transverse
    speed: in the x-y plane, and in the x-z plane. *)
Definition r_unit : Vec3 R := mk3 1 0 0.
Definition v_planar (delta : R) : Vec3 R := mk3 delta 1 0.
Definition v_polar (delta : R) : Vec3 R := mk3 delta 0 1.

(** The eccentric anomaly that belongs to a true anomaly [nu] in [0, pi] at
    eccentricity [e], and Kepler's equation [M = E - e sin E]. *)
Definition eccentric_anomaly (e nu : R) : R :=
  acos ((e + cos nu) / (1 + e * cos nu)).

Definition kepler_mean_anomaly (e nu : R) : R :=
  eccentric_anomaly e nu - e * sin (eccentric_anomaly e nu).

(** A simulation without forces: every particle keeps its velocity, so
    [integrate] to [t] moves it by [v * (t - sim.t)]. *)
Record DriftSim : Type := mkDrift {
  dr_t : R;
  dr_particles : list (Particle R);
  dr_dt : R;
  dr_integrator : string;
  dr_gr : bool
}.

Definition drift (dt : R) (p : Particle R) : Particle R :=
  mkParticle (p_m p)
             (p_x p + p_vx p * dt) (p_y p + p_vy p * dt) (p_z p + p_vz p * dt)
             (p_vx p) (p_vy p) (p_vz p).

Definition drift_integrate (s : DriftSim) (t : R) (exact_finish_time : bool)
  : DriftSim :=
  mkDrift t (map (drift (t - dr_t s)) (dr_particles s))
          (dr_dt s) (dr_integrator s) (dr_gr s).

Definition drift_rebound (orbit_of : Particle R -> Particle R -> Orbit R)
  : Rebound R := {|
  Simulation := DriftSim;
  sim_new := mkDrift 0 [] (1 / 1000) "ias15" false;
  sim_t := dr_t;
  sim_particles := dr_particles;
  sim_set_integrator := fun s name =>
    mkDrift (dr_t s) (dr_particles s) (dr_dt s) name (dr_gr s);
  sim_set_dt := fun s dt =>
    mkDrift (dr_t s) (dr_particles s) dt (dr_integrator s) (dr_gr s);
  sim_add := fun s p =>
    mkDrift (dr_t s) (dr_particles s ++ [p]) (dr_dt s) (dr_integrator s) (dr_gr s);
  sim_integrate := drift_integrate;
  add_gr_full := fun s =>
    mkDrift (dr_t s) (dr_particles s) (dr_dt s) (dr_integrator s) true;
  calculate_orbit := orbit_of
|}.

(** An orbit of a particle about a primary from the two-body solution of
    [keplerian_from_cartesian] on their relative state. *)
Definition two_body_orbit (p primary : Particle R) : Orbit R :=
  let rel := mk3 (p_x p - p_x primary) (p_y p - p_y primary) (p_z p - p_z primary) in
  let vel := mk3 (p_vx p - p_vx primary) (p_vy p - p_vy primary)
                 (p_vz p - p_vz primary) in
  match keplerian_from_cartesian rel vel (p_m p + p_m primary) 0 1 with
  | inr k => mkOrbit (norm rel) (k_a k) (k_period k) (k_true_anom k) (k_per0 k)
                     (k_long_an k) (k_incl k) (k_e k) (k_t0_perpass k)
  | inl _ => mkOrbit (norm rel) 0 0 0 0 0 0 0 0
  end.

(** One secant step from [x0] and [x0 + 1]: a root finder that is exact on
    affine functions. *)
Definition secant_newton (S : Type) (func : R -> S -> R * S) (x0 : R) (s : S)
  : (Exn + R) * S :=
  let p0 := x0 in
  let p1 := x0 + 1 in
  let '(q0, s) := func p0 s in
  let '(q1, s) := func p1 s in
  if Req_dec_T q1 q0
  then (inl (RuntimeError "Failed to converge"), s)
  else (inr (p1 - q1 * (p1 - p0) / (q1 - q0)), s).

#[export] Instance secant_scipy : Scipy R := {| newton := secant_newton |}.

(** A bundle given by its tables; a keyword argument overrides the compute
    option of the same name. *)
Record TableBundle : Type := mkTableBundle {
  tb_compute : string -> Value R;
  tb_stars : list string;
  tb_orbits : list string;
  tb_siblings : string -> list string;
  tb_value : string -> option string -> R;
  tb_init : Arrays R
}.

#[export] Instance table_bundle : BundleAPI R := {|
  Bundle := TableBundle;
  run_delayed_constraints := fun b => b;
  compute_get_value := fun b compute qualifier kwargs =>
    match kwargs !! qualifier with
    | Some v => v
    | None => tb_compute b qualifier
    end;
  get_stars := tb_stars;
  get_orbits := tb_orbits;
  get_stars_of_sibling_of := tb_siblings;
  get_value := fun b qualifier unit component context => tb_value b qualifier component;
  keplerian_dynamics_from_bundle := fun b ts compute => tb_init b
|}.

(** The constants: light speed in AU/d from 299792458 m/s and the
    astronomical unit, the AU in nominal solar radii, and G (rounded). *)
Definition env_R (can_rebound can_reboundx : bool) : Env R :=
  mkEnv can_rebound can_reboundx
        (149597870700 / 695700000)
        (299792458 * 86400 / 149597870700)
        (29422 / 10)
        (29591 / 100000000).

(** Two stars in one orbit.  At [t0 = 0] the primary is one light-day
    closer to the observer than the barycentre ([z = c]), the secondary is
    at [z = 0]; both move along x. *)
Definition two_stars : TableBundle :=
  let c := c_AU_d (env_R true true) in
  mkTableBundle
    (fun qualifier =>
       if String.eqb qualifier "stepsize" then VFloat (1 / 100)
       else if String.eqb qualifier "integrator" then VStr "ias15"
       else VBool false)
    ["primary"; "secondary"]
    ["binary"]
    (fun starref => if String.eqb starref "primary" then ["secondary"]
                    else ["primary"])
    (fun qualifier component =>
       if String.eqb qualifier "t0" then 0
       else if String.eqb qualifier "vgamma" then 0
       else 1)
    (mkArrays [[0]; [2]] [[0]; [0]] [[c]; [0]] [[1]; [-1]] [[0]; [0]] [[0]; [0]]).

(** The simulation the driver builds for [two_stars], moved to time [t]. *)
Definition two_stars_at (t : R) : DriftSim :=
  let c := c_AU_d (env_R true true) in
  let m := 1 * G_solRad (env_R true true) in
  mkDrift t
          [mkParticle m (0 + 1 * t) 0 c 1 0 0;
           mkParticle m (2 + -1 * t) 0 0 (-1) 0 0]
          (1 / 100) "ias15" false.

#[export] Instance drift_two_body : Rebound R := drift_rebound two_body_orbit.

(** That simulation at time [t], with the log [tr] of [integrate] calls. *)
Definition two_stars_session (orbit_of : Particle R -> Particle R -> Orbit R)
    (t : R) (tr : list R) : @Session R (drift_rebound orbit_of) :=
  @mkSession R (drift_rebound orbit_of) (two_stars_at t) tr.

(** The keyword arguments [ltte=True]. *)
Definition kw_ltte : gmap string (Value R) := {["ltte" := VBool true]}.

(** A backend that returns, for star [oi] at time [t], the coordinates
    [t + m] where [m] is the star's mass. *)
#[export] Instance sample_photodynam : Photodynam R := {|
  do_dynamics := fun times masses smas eccs incls per0s long_ans mean_anoms
                     t0 stepsize orbiterror ltte rre =>
    let a := mkArray (length masses)
                     (map (fun t => map (fun m => t + m) masses) times) in
    mkPhotodynamOut R times a a a a a a [] [] [] [] [] []
|}.

(** A particle moved by [d] and boosted by [w]. *)
Definition translate (d w : Vec3 R) (p : Particle R) : Particle R :=
  mkParticle (p_m p) (p_x p + c0 d) (p_y p + c1 d) (p_z p + c2 d)
             (p_vx p + c0 w) (p_vy p + c1 w) (p_vz p + c2 w).

(** A root finder that gives up at once. *)
Definition failing_newton (S : Type) (func : R -> S -> R * S) (x0 : R) (s : S)
  : (Exn + R) * S :=
  (inl (RuntimeError "Failed to converge"), s).

Definition failing_scipy : Scipy R := {| newton := failing_newton |}.

(** The bundle [b] with another systemic velocity. *)
Definition with_vgamma (v : R) (b : TableBundle) : TableBundle :=
  mkTableBundle (tb_compute b) (tb_stars b) (tb_orbits b) (tb_siblings b)
    (fun qualifier component =>
       if String.eqb qualifier "vgamma" then v else tb_value b qualifier component)
    (tb_init b).

(** Instantaneous elements as photodynam returns them: semi-major axis
    [t + 1] AU and mean anomaly [t] for every orbit at time [t]. *)
Definition elements_photodynam : Photodynam R := {|
  do_dynamics := fun times masses smas eccs incls per0s long_ans mean_anoms
                     t0 stepsize orbiterror ltte rre =>
    let a := mkArray (length masses)
                     (map (fun t => map (fun m => t + m) masses) times) in
    let per_orbit (f : R -> R) := map (fun t => map (fun _ => f t) smas) times in
    mkPhotodynamOut R times a a a a a a
      (per_orbit (fun t => t + 1)) (per_orbit (fun _ => 0))
      (per_orbit (fun _ => 0)) (per_orbit (fun _ => 0))
      (per_orbit (fun _ => 0)) (per_orbit (fun t => t))
|}.

End RealModel.

(** * Theorems *)

(** ** Branch structure of [keplerian_from_cartesian] *)

Section KeplerianFacts.
Context {F : Type} `{FloatOps F}.
Local Open Scope fl_scope.

Variables (positions velocities : Vec3 F) (mass_tot t0 G : F).

Let r_v := positions.
Let v_v := velocities.
Let mu := mass_tot * G.
Let n_v := n_vec r_v v_v.
Let e_v := e_vec r_v v_v mu.
Let e := ecc r_v v_v mu.
Let incl := inclination r_v v_v.

(** What a successful call returns, field by field. *)
Lemma kfc_returns :
  (e >=? one) = false ->
  exists k,
    keplerian_from_cartesian positions velocities mass_tot t0 G = inr k
    /\ k_e k = e
    /\ k_incl k = incl
    /\ k_long_an k
       = (if fabs incl <? tol_incl then zero
          else quadrant (c1 n_v <? zero) (farccos (c0 n_v / norm n_v)) + f_pi)
    /\ k_per0 k
       = (let per0 :=
            if fabs incl <? tol_incl
            then (if e =? zero then zero else farccos (c0 e_v / e))
            else (if e =? zero then zero
                  else farccos (dot n_v e_v / (norm n_v * e))) in
          if e <? tol_ecc then per0
          else if (c2 e_v <? zero) && (e >? zero)
               then two * f_pi - per0 else per0)
    /\ k_true_anom k
       = (if e <? tol_ecc then
            if fabs incl <? tol_incl
            then quadrant (c0 v_v >? zero) (farccos (c0 r_v / norm r_v))
            else quadrant (dot n_v v_v >? zero)
                          (farccos (dot n_v r_v / (norm n_v * norm r_v)))
          else quadrant (dot r_v v_v <? zero)
                        (farccos (dot e_v r_v / (e * norm r_v))))
    /\ k_mean_anom k = k_true_anom k - k_e k * fsin (k_true_anom k)
    /\ k_t0_perpass k
       = t0 - (k_mean_anom k * k_period k) / (two * f_pi).
Proof.
  intros Hacc. unfold keplerian_from_cartesian.
  fold mu. change (norm (e_vec positions velocities mu)) with e.
  change (farccos (c2 (h_vec positions velocities)
                   / norm (h_vec positions velocities))) with incl.
  rewrite Hacc. cbn zeta.
  destruct (fabs incl <? tol_incl), (e <? tol_ecc);
    (eexists; split; [reflexivity | cbn; repeat split]).
Qed.

(** C4: when the derived eccentricity [e = |e_v|] tests [>= 1] the call
    raises (the module's [NotImplementedError "ecc cannot be >= 1"], which
    the specification calls InvalidOrbitError) and returns no elements. *)
Theorem kfc_unbound_orbit_raises :
  (e >=? one) = true ->
  keplerian_from_cartesian positions velocities mass_tot t0 G
    = inl (NotImplementedError "ecc cannot be >= 1")
  /\ forall k, keplerian_from_cartesian positions velocities mass_tot t0 G <> inr k.
Proof.
  intros Hge.
  assert (Hraise : keplerian_from_cartesian positions velocities mass_tot t0 G
                   = inl (NotImplementedError "ecc cannot be >= 1")).
  { unfold keplerian_from_cartesian.
    change (norm (e_vec positions velocities (mass_tot * G))) with e.
    now rewrite Hge. }
  split; [exact Hraise | intros k Hk; rewrite Hraise in Hk; discriminate].
Qed.

(** C3 (amended): in the planar, near-circular branch the node is 0 and the
    true anomaly comes from the x-components alone; the argument of
    periastron is 0 when [e == 0] holds exactly and the uncorrected
    [arccos(e_v[0]/e)] otherwise, which is in general not 0. *)
Theorem kfc_planar_circular :
  (e >=? one) = false ->
  (fabs incl <? tol_incl) = true ->
  (e <? tol_ecc) = true ->
  exists k,
    keplerian_from_cartesian positions velocities mass_tot t0 G = inr k
    /\ k_long_an k = zero
    /\ k_true_anom k
       = quadrant (c0 v_v >? zero) (farccos (c0 r_v / norm r_v))
    /\ k_per0 k = (if e =? zero then zero else farccos (c0 e_v / e)).
Proof.
  intros Hacc Hinc Hecc. unfold keplerian_from_cartesian.
  fold mu. change (norm (e_vec positions velocities mu)) with e.
  change (farccos (c2 (h_vec positions velocities)
                   / norm (h_vec positions velocities))) with incl.
  rewrite Hacc, Hinc, Hecc. cbn zeta.
  eexists. split; [reflexivity |]. cbn. auto.
Qed.

(** C8 (amended): in the non-degenerate branch the node is the corrected
    arccos plus pi; the e_v-based true anomaly and the quadrant correction
    of the argument of periastron belong to the branch [not (e < 1e-6)];
    below the tolerance the argument of periastron stays uncorrected. *)
Theorem kfc_inclined :
  (e >=? one) = false ->
  (fabs incl <? tol_incl) = false ->
  exists k,
    keplerian_from_cartesian positions velocities mass_tot t0 G = inr k
    /\ k_long_an k
       = quadrant (c1 n_v <? zero) (farccos (c0 n_v / norm n_v)) + f_pi
    /\ ((e <? tol_ecc) = false ->
        k_true_anom k
        = quadrant (dot r_v v_v <? zero)
                   (farccos (dot e_v r_v / (e * norm r_v)))
        /\ ((e =? zero) = false -> (e >? zero) = true ->
            k_per0 k
            = quadrant (c2 e_v <? zero)
                       (farccos (dot n_v e_v / (norm n_v * e)))))
    /\ ((e <? tol_ecc) = true ->
        k_per0 k
        = (if e =? zero then zero
           else farccos (dot n_v e_v / (norm n_v * e)))).
Proof.
  intros Hacc Hinc. unfold keplerian_from_cartesian.
  fold mu. change (norm (e_vec positions velocities mu)) with e.
  change (farccos (c2 (h_vec positions velocities)
                   / norm (h_vec positions velocities))) with incl.
  rewrite Hacc, Hinc. cbn zeta.
  destruct (e <? tol_ecc) eqn:Hecc.
  - eexists. split; [reflexivity |]. cbn.
    split; [reflexivity |]. split; [discriminate | reflexivity].
  - eexists. split; [reflexivity |]. cbn.
    split; [reflexivity |]. split; [| discriminate].
    intros _. split; [reflexivity |].
    intros Hne Hpos. rewrite Hne, Hpos, andb_true_r. reflexivity.
Qed.

End KeplerianFacts.

(** ** Evaluation over the real numbers *)

Module RealFacts.
Import RealModel.
Local Open Scope R_scope.

Lemma zero_R : @zero R _ = 0.  Proof. unfold zero. cbn. unfold Q2R. cbn. lra. Qed.
Lemma one_R : @one R _ = 1.  Proof. unfold one. cbn. unfold Q2R. cbn. lra. Qed.
Lemma two_R : @two R _ = 2.  Proof. unfold two. cbn. unfold Q2R. cbn. lra. Qed.
Lemma tol_ecc_R : @tol_ecc R _ = / 1000000.
Proof. unfold tol_ecc. cbn. unfold Q2R. cbn. lra. Qed.
Lemma tol_incl_R : @tol_incl R _ = / 1000000000000.
Proof. unfold tol_incl. cbn. unfold Q2R. cbn. lra. Qed.

Lemma flt_true x y : x < y -> flt x y = true.
Proof. intros. cbn. destruct (Rlt_dec x y); [reflexivity | lra]. Qed.
Lemma flt_false x y : y <= x -> flt x y = false.
Proof. intros. cbn. destruct (Rlt_dec x y); [lra | reflexivity]. Qed.
Lemma fgt_true x y : y < x -> fgt x y = true.
Proof. intros. cbn. destruct (Rgt_dec x y); [reflexivity | lra]. Qed.
Lemma fgt_false x y : x <= y -> fgt x y = false.
Proof. intros. cbn. destruct (Rgt_dec x y); [lra | reflexivity]. Qed.
Lemma fge_true x y : y <= x -> fge x y = true.
Proof. intros. cbn. destruct (Rge_dec x y); [reflexivity | lra]. Qed.
Lemma fge_false x y : x < y -> fge x y = false.
Proof. intros. cbn. destruct (Rge_dec x y); [lra | reflexivity]. Qed.
Lemma feq_true x y : x = y -> feq x y = true.
Proof. intros. cbn. destruct (Req_dec_T x y); [reflexivity | lra]. Qed.
Lemma feq_false x y : x <> y -> feq x y = false.
Proof. intros. cbn. destruct (Req_dec_T x y); [contradiction | reflexivity]. Qed.

Lemma norm_R (a : Vec3 R) : norm a = sqrt (c0 a * c0 a + c1 a * c1 a + c2 a * c2 a).
Proof. reflexivity. Qed.

Lemma norm_axis_x : norm (mk3 1 0 0) = 1.
Proof. rewrite norm_R. cbn. replace (1 * 1 + 0 * 0 + 0 * 0) with 1 by lra. apply sqrt_1. Qed.

Lemma norm_r_unit : norm r_unit = 1.
Proof. apply norm_axis_x. Qed.

Lemma sq_norm_R (a : Vec3 R) :
  fpow (norm a) 2 = c0 a * c0 a + c1 a * c1 a + c2 a * c2 a.
Proof.
  rewrite norm_R. cbn [fpow R_ops R_pow].
  change (Pos.to_nat 2) with 2%nat. apply pow2_sqrt. nra.
Qed.

Lemma e_vec_planar d : e_vec r_unit (v_planar d) (fmul 1 1) = mk3 0 (- d) 0.
Proof.
  unfold e_vec. rewrite sq_norm_R, norm_r_unit.
  unfold vdiv, vsub, smul, dot. cbn. f_equal; field.
Qed.

Lemma ecc_planar d : 0 <= d -> ecc r_unit (v_planar d) (fmul 1 1) = d.
Proof.
  intros Hd. unfold ecc. rewrite e_vec_planar, norm_R. cbn.
  replace (0 * 0 + - d * - d + 0 * 0) with (d * d) by lra.
  now apply sqrt_square.
Qed.

Lemma h_vec_planar d : h_vec r_unit (v_planar d) = mk3 0 0 1.
Proof. unfold h_vec, cross. cbn. f_equal; lra. Qed.

Lemma norm_axis_z : norm (mk3 0 0 1) = 1.
Proof. rewrite norm_R. cbn. replace (0 * 0 + 0 * 0 + 1 * 1) with 1 by lra. apply sqrt_1. Qed.

Lemma incl_planar d : inclination r_unit (v_planar d) = 0.
Proof.
  unfold inclination. rewrite h_vec_planar, norm_axis_z. cbn.
  replace (1 / 1) with 1 by lra. apply acos_1.
Qed.

Lemma e_vec_polar d : e_vec r_unit (v_polar d) (fmul 1 1) = mk3 0 0 (- d).
Proof.
  unfold e_vec. rewrite sq_norm_R, norm_r_unit.
  unfold vdiv, vsub, smul, dot. cbn. f_equal; field.
Qed.

Lemma ecc_polar d : 0 <= d -> ecc r_unit (v_polar d) (fmul 1 1) = d.
Proof.
  intros Hd. unfold ecc. rewrite e_vec_polar, norm_R. cbn.
  replace (0 * 0 + 0 * 0 + - d * - d) with (d * d) by lra.
  now apply sqrt_square.
Qed.

Lemma h_vec_polar d : h_vec r_unit (v_polar d) = mk3 0 (-1) 0.
Proof. unfold h_vec, cross. cbn. f_equal; lra. Qed.

Lemma norm_neg_axis_y : norm (mk3 0 (-1) 0) = 1.
Proof. rewrite norm_R. cbn. replace (0 * 0 + -1 * -1 + 0 * 0) with 1 by lra. apply sqrt_1. Qed.

Lemma incl_polar d : inclination r_unit (v_polar d) = PI / 2.
Proof.
  unfold inclination. rewrite h_vec_polar, norm_neg_axis_y. cbn.
  replace (0 / 1) with 0 by lra. apply acos_0.
Qed.

Lemma n_vec_polar d : n_vec r_unit (v_polar d) = mk3 1 0 0.
Proof.
  unfold n_vec. rewrite h_vec_polar. unfold cross. cbn [c0 c1 c2].
  rewrite zero_R, one_R. cbn. f_equal; lra.
Qed.

Lemma PI_gt_3 : 3 < PI.
Proof. pose proof PI2_3_2. lra. Qed.

Lemma acos_half : acos (1 / 2) = PI / 3.
Proof.
  rewrite <- cos_PI3. apply acos_cos. pose proof PI_gt_3. lra.
Qed.

(** The planar state: what a call returns for [0 < d < 1]. *)
Lemma kfc_planar_run d :
  0 < d < 1 ->
  exists k,
    keplerian_from_cartesian r_unit (v_planar d) 1 0 1 = inr k
    /\ k_e k = d
    /\ k_long_an k = 0
    /\ k_per0 k = PI / 2
    /\ k_true_anom k = (if Rlt_dec d (/ 1000000) then 2 * PI - 0 else PI / 2)
    /\ k_mean_anom k = k_true_anom k - d * sin (k_true_anom k).
Proof.
  intros Hd.
  destruct (kfc_returns r_unit (v_planar d) 1 0 1)
    as (k & Hk & He & _ & Hlong & Hper0 & Hta & Hma & _).
  { rewrite ecc_planar by lra. apply fge_false. rewrite one_R. lra. }
  assert (Hplane : flt (fabs (inclination r_unit (v_planar d))) tol_incl = true).
  { rewrite incl_planar. apply flt_true. rewrite tol_incl_R.
    change (@fabs R R_ops 0) with (Rabs 0). rewrite Rabs_R0. lra. }
  rewrite Hplane in Hlong, Hper0, Hta.
  rewrite ecc_planar, e_vec_planar in * by lra.
  cbn zeta in Hper0. cbn [c0 c1 c2] in Hper0, Hta.
  rewrite feq_false in Hper0 by (rewrite zero_R; lra).
  assert (Hraw : @farccos R R_ops (fdiv 0 d) = PI / 2).
  { cbn. replace (0 / d) with 0 by (field; lra). apply acos_0. }
  rewrite Hraw in Hper0.
  exists k. split; [exact Hk |]. split; [exact He |].
  split; [rewrite Hlong; apply zero_R |].
  split; [| split].
  - rewrite Hper0. destruct (Rlt_dec d (/ 1000000)) as [Hs | Hs].
    + rewrite flt_true by (rewrite tol_ecc_R; lra). reflexivity.
    + rewrite flt_false by (rewrite tol_ecc_R; lra).
      rewrite (flt_false 0) by (rewrite zero_R; lra). reflexivity.
  - rewrite Hta. destruct (Rlt_dec d (/ 1000000)) as [Hs | Hs].
    + rewrite flt_true by (rewrite tol_ecc_R; lra).
      unfold quadrant. unfold v_planar, r_unit. cbn [c0 c1 c2].
      rewrite fgt_true by (rewrite zero_R; lra).
      rewrite norm_axis_x, two_R. cbn.
      replace (1 / 1) with 1 by lra. now rewrite acos_1.
    + rewrite flt_false by (rewrite tol_ecc_R; lra).
      unfold quadrant, dot, v_planar, r_unit. cbn [c0 c1 c2].
      rewrite norm_axis_x.
      rewrite flt_false by (rewrite zero_R; cbn; lra). cbn.
      replace ((0 * 1 + - d * 0 + 0 * 0) / (d * 1)) with 0 by (field; lra).
      apply acos_0.
  - rewrite Hma, He. reflexivity.
Qed.

(** The state in the x-z plane: what a call returns for [0 < d < 1]. *)
Lemma kfc_polar_run d :
  0 < d < 1 ->
  exists k,
    keplerian_from_cartesian r_unit (v_polar d) 1 0 1 = inr k
    /\ k_long_an k = 0 + PI
    /\ k_per0 k = (if Rlt_dec d (/ 1000000) then PI / 2 else 2 * PI - PI / 2)
    /\ (~ d < / 1000000 -> k_true_anom k = PI / 2).
Proof.
  intros Hd.
  destruct (kfc_returns r_unit (v_polar d) 1 0 1)
    as (k & Hk & He & _ & Hlong & Hper0 & Hta & Hma & _).
  { rewrite ecc_polar by lra. apply fge_false. rewrite one_R. lra. }
  assert (Hplane : flt (fabs (inclination r_unit (v_polar d))) tol_incl = false).
  { rewrite incl_polar. apply flt_false. rewrite tol_incl_R.
    change (@fabs R R_ops (PI / 2)) with (Rabs (PI / 2)).
    pose proof PI_gt_3. rewrite Rabs_pos_eq; lra. }
  rewrite Hplane in Hlong, Hper0, Hta.
  rewrite ecc_polar, e_vec_polar, n_vec_polar in * by lra.
  cbn zeta in Hper0. rewrite norm_axis_x in *. cbn [c0 c1 c2] in *.
  rewrite feq_false in Hper0 by (rewrite zero_R; lra).
  assert (Hraw : @farccos R R_ops
                   (fdiv (dot (mk3 1 0 0) (mk3 0 0 (- d))) (fmul 1 d)) = PI / 2).
  { unfold dot. cbn.
    replace ((1 * 0 + 0 * 0 + 0 * - d) / (1 * d)) with 0 by (field; lra).
    apply acos_0. }
  rewrite Hraw in Hper0.
  exists k. split; [exact Hk |]. split; [| split].
  - rewrite Hlong. unfold quadrant.
    rewrite flt_false by (rewrite zero_R; lra). cbn.
    replace (1 / 1) with 1 by lra. now rewrite acos_1.
  - rewrite Hper0. destruct (Rlt_dec d (/ 1000000)) as [Hs | Hs].
    + rewrite flt_true by (rewrite tol_ecc_R; lra). reflexivity.
    + rewrite flt_false by (rewrite tol_ecc_R; lra).
      rewrite flt_true by (rewrite zero_R; lra).
      rewrite fgt_true by (rewrite zero_R; lra).
      cbn [andb]. rewrite two_R. reflexivity.
  - intros Hs. rewrite Hta.
    rewrite flt_false by (rewrite tol_ecc_R; lra).
    unfold quadrant, dot, v_polar, r_unit. cbn [c0 c1 c2].
    rewrite norm_axis_x.
    rewrite flt_false by (rewrite zero_R; cbn; lra). cbn.
    replace ((0 * 1 + 0 * 0 + - d * 0) / (d * 1)) with 0 by (field; lra).
    apply acos_0.
Qed.

End RealFacts.

(** ** [keplerian_from_cartesian] on concrete states *)

Section KeplerianRuns.
Import RealModel RealFacts.
Local Open Scope R_scope.

(** C1: at [r = (1,0,0)], [v = (1/2,1,0)], [mass_tot = G = 1] the call
    returns [e = 1/2] and true anomaly [pi/2]; its mean anomaly is
    [pi/2 - 1/2], the true anomaly put into Kepler's equation in the place
    of the eccentric anomaly, whereas the eccentric anomaly of that true
    anomaly is [pi/3] and Kepler's equation gives [pi/3 - sqrt 3 / 4].  The
    epoch of periastron is [t0 - M * period / (2 pi)] for the returned [M]. *)
Theorem kfc_mean_anomaly_from_true_anomaly :
  exists k,
    keplerian_from_cartesian r_unit (v_planar (1 / 2)) 1 0 1 = inr k
    /\ k_e k = 1 / 2
    /\ k_true_anom k = PI / 2
    /\ k_mean_anom k = PI / 2 - 1 / 2
    /\ kepler_mean_anomaly (k_e k) (k_true_anom k) = PI / 3 - sqrt 3 / 4
    /\ k_mean_anom k <> kepler_mean_anomaly (k_e k) (k_true_anom k)
    /\ k_t0_perpass k = 0 - k_mean_anom k * k_period k / (2 * PI).
Proof.
  destruct (kfc_planar_run (1 / 2)) as (k & Hk & He & _ & _ & Hta & Hma);
    [lra |].
  destruct (Rlt_dec (1 / 2) (/ 1000000)) as [Hs | _]; [lra |].
  assert (HM : k_mean_anom k = PI / 2 - 1 / 2).
  { rewrite Hma, Hta, sin_PI2. lra. }
  assert (HK : kepler_mean_anomaly (k_e k) (k_true_anom k) = PI / 3 - sqrt 3 / 4).
  { rewrite He, Hta. unfold kepler_mean_anomaly, eccentric_anomaly.
    rewrite cos_PI2.
    replace ((1 / 2 + 0) / (1 + 1 / 2 * 0)) with (1 / 2) by field.
    rewrite acos_half, sin_PI3. lra. }
  exists k. repeat split; try assumption.
  - rewrite HM, HK. pose proof PI_gt_3. pose proof (sqrt_pos 3). lra.
  - destruct (kfc_returns r_unit (v_planar (1 / 2)) 1 0 1)
      as (k' & Hk' & _ & _ & _ & _ & _ & _ & Ht0).
    { rewrite ecc_planar by lra. apply fge_false. rewrite one_R. lra. }
    rewrite Hk in Hk'. injection Hk' as <-. rewrite Ht0, two_R. reflexivity.
Qed.

(** C3, counterexample: a planar state with [e = 1e-7], below the
    circularity tolerance, for which the returned argument of periastron
    is [pi/2], not 0. *)
Lemma kfc_planar_small_ecc_per0 :
  exists k,
    keplerian_from_cartesian r_unit (v_planar (/ 10000000)) 1 0 1 = inr k
    /\ flt (fabs (inclination r_unit (v_planar (/ 10000000)))) tol_incl = true
    /\ flt (ecc r_unit (v_planar (/ 10000000)) (fmul 1 1)) tol_ecc = true
    /\ k_per0 k = PI / 2
    /\ k_per0 k <> 0.
Proof.
  destruct (kfc_planar_run (/ 10000000)) as (k & Hk & _ & _ & Hp & _); [lra |].
  exists k. split; [exact Hk |]. split; [| split; [| split; [exact Hp |]]].
  - rewrite incl_planar. apply flt_true. rewrite tol_incl_R.
    change (@fabs R R_ops 0) with (Rabs 0). rewrite Rabs_R0. lra.
  - rewrite ecc_planar by lra. apply flt_true. rewrite tol_ecc_R. lra.
  - rewrite Hp. pose proof PI_gt_3. lra.
Qed.

(** C3, witness: the planar state with [e = 1e-7]. *)
Lemma kfc_planar_circular_witness :
  exists k,
    keplerian_from_cartesian r_unit (v_planar (/ 10000000)) 1 0 1 = inr k
    /\ k_long_an k = zero
    /\ k_true_anom k
       = quadrant (fgt (c0 (v_planar (/ 10000000))) zero)
                  (farccos (fdiv (c0 r_unit) (norm r_unit)))
    /\ k_per0 k
       = (if feq (ecc r_unit (v_planar (/ 10000000)) (fmul 1 1)) zero then zero
          else farccos (fdiv (c0 (e_vec r_unit (v_planar (/ 10000000)) (fmul 1 1)))
                             (ecc r_unit (v_planar (/ 10000000)) (fmul 1 1)))).
Proof.
  apply (kfc_planar_circular r_unit (v_planar (/ 10000000)) 1 0 1).
  - rewrite ecc_planar by lra. apply fge_false. rewrite one_R. lra.
  - rewrite incl_planar. apply flt_true. rewrite tol_incl_R.
    change (@fabs R R_ops 0) with (Rabs 0). rewrite Rabs_R0. lra.
  - rewrite ecc_planar by lra. apply flt_true. rewrite tol_ecc_R. lra.
Defined.

(** C4, witness: the planar state with radial speed 1 has [e = 1]. *)
Lemma kfc_unbound_orbit_raises_witness :
  keplerian_from_cartesian r_unit (v_planar 1) 1 0 1
    = inl (NotImplementedError "ecc cannot be >= 1")
  /\ forall k, keplerian_from_cartesian r_unit (v_planar 1) 1 0 1 <> inr k.
Proof.
  apply (kfc_unbound_orbit_raises r_unit (v_planar 1) 1 0 1).
  rewrite ecc_planar by lra. apply fge_true. rewrite one_R. lra.
Defined.

(** C8, counterexample: an orbit in the x-z plane with [e = 1e-7] whose
    eccentricity vector points to negative z; the returned argument of
    periastron is the uncorrected [pi/2], not [2 pi - pi/2]. *)
Lemma kfc_inclined_small_ecc_per0 :
  exists k,
    keplerian_from_cartesian r_unit (v_polar (/ 10000000)) 1 0 1 = inr k
    /\ flt (fabs (inclination r_unit (v_polar (/ 10000000)))) tol_incl = false
    /\ k_per0 k = PI / 2
    /\ quadrant
         (flt (c2 (e_vec r_unit (v_polar (/ 10000000)) (fmul 1 1))) zero)
         (farccos
            (fdiv (dot (n_vec r_unit (v_polar (/ 10000000)))
                       (e_vec r_unit (v_polar (/ 10000000)) (fmul 1 1)))
                  (fmul (norm (n_vec r_unit (v_polar (/ 10000000))))
                        (ecc r_unit (v_polar (/ 10000000)) (fmul 1 1)))))
       = 2 * PI - PI / 2
    /\ k_per0 k
       <> quadrant
            (flt (c2 (e_vec r_unit (v_polar (/ 10000000)) (fmul 1 1))) zero)
            (farccos
               (fdiv (dot (n_vec r_unit (v_polar (/ 10000000)))
                          (e_vec r_unit (v_polar (/ 10000000)) (fmul 1 1)))
                     (fmul (norm (n_vec r_unit (v_polar (/ 10000000))))
                           (ecc r_unit (v_polar (/ 10000000)) (fmul 1 1))))).
Proof.
  destruct (kfc_polar_run (/ 10000000)) as (k & Hk & _ & Hp & _); [lra |].
  destruct (Rlt_dec (/ 10000000) (/ 1000000)) as [_ | Hs]; [| lra].
  assert (Hq : quadrant
         (flt (c2 (e_vec r_unit (v_polar (/ 10000000)) (fmul 1 1))) zero)
         (farccos
            (fdiv (dot (n_vec r_unit (v_polar (/ 10000000)))
                       (e_vec r_unit (v_polar (/ 10000000)) (fmul 1 1)))
                  (fmul (norm (n_vec r_unit (v_polar (/ 10000000))))
                        (ecc r_unit (v_polar (/ 10000000)) (fmul 1 1)))))
       = 2 * PI - PI / 2).
  { rewrite ecc_polar, e_vec_polar, n_vec_polar, norm_axis_x by lra.
    unfold quadrant, dot. cbn [c0 c1 c2].
    rewrite flt_true by (rewrite zero_R; lra). rewrite two_R. cbn.
    replace ((1 * 0 + 0 * 0 + 0 * - / 10000000) / (1 * / 10000000)) with 0
      by (field; lra).
    now rewrite acos_0. }
  exists k. split; [exact Hk |]. split; [| split; [exact Hp | split; [exact Hq |]]].
  - rewrite incl_polar. apply flt_false. rewrite tol_incl_R.
    change (@fabs R R_ops (PI / 2)) with (Rabs (PI / 2)).
    pose proof PI_gt_3. rewrite Rabs_pos_eq; lra.
  - rewrite Hq, Hp. pose proof PI_gt_3. lra.
Qed.

(** C8, witness: the orbit in the x-z plane with [e = 1/2]. *)
Lemma kfc_inclined_witness :
  exists k,
    keplerian_from_cartesian r_unit (v_polar (1 / 2)) 1 0 1 = inr k
    /\ k_long_an k
       = fadd (quadrant (flt (c1 (n_vec r_unit (v_polar (1 / 2)))) zero)
                 (farccos (fdiv (c0 (n_vec r_unit (v_polar (1 / 2))))
                                (norm (n_vec r_unit (v_polar (1 / 2)))))))
              f_pi
    /\ k_true_anom k
       = quadrant (flt (dot r_unit (v_polar (1 / 2))) zero)
           (farccos (fdiv (dot (e_vec r_unit (v_polar (1 / 2)) (fmul 1 1)) r_unit)
                          (fmul (ecc r_unit (v_polar (1 / 2)) (fmul 1 1))
                                (norm r_unit))))
    /\ k_per0 k
       = quadrant (flt (c2 (e_vec r_unit (v_polar (1 / 2)) (fmul 1 1))) zero)
           (farccos
              (fdiv (dot (n_vec r_unit (v_polar (1 / 2)))
                         (e_vec r_unit (v_polar (1 / 2)) (fmul 1 1)))
                    (fmul (norm (n_vec r_unit (v_polar (1 / 2))))
                          (ecc r_unit (v_polar (1 / 2)) (fmul 1 1))))).
Proof.
  destruct (kfc_inclined r_unit (v_polar (1 / 2)) 1 0 1)
    as (k & Hk & Hlong & Hbig & _).
  - rewrite ecc_polar by lra. apply fge_false. rewrite one_R. lra.
  - rewrite incl_polar. apply flt_false. rewrite tol_incl_R.
    change (@fabs R R_ops (PI / 2)) with (Rabs (PI / 2)).
    pose proof PI_gt_3. rewrite Rabs_pos_eq; lra.
  - destruct Hbig as [Hta Hp].
    { rewrite ecc_polar by lra. apply flt_false. rewrite tol_ecc_R. lra. }
    exists k. split; [exact Hk |]. split; [exact Hlong |]. split; [exact Hta |].
    apply Hp.
    + rewrite ecc_polar by lra. apply feq_false. rewrite zero_R. lra.
    + rewrite ecc_polar by lra. apply fgt_true. rewrite zero_R. lra.
Defined.

End KeplerianRuns.

(** ** The rebound driver, for every backend *)

Section NBodyFacts.
Context {F : Type} `{FloatOps F} `{Rebound F} `{Scipy F} `{BundleAPI F}.
Context `{Photodynam F}.
Variable env : Env F.
Local Open Scope fl_scope.

(** Without LTTE a body is read off the simulation, which is left as it is. *)
Lemma body_step_no_ltte rre sibling_Ns rotperiods i time j st :
  exists st',
    body_step env rre false sibling_Ns rotperiods i time j st = (None, st')
    /\ l_sess st' = l_sess st.
Proof.
  unfold body_step. cbn. eexists. split; reflexivity.
Qed.

Lemma bodies_no_ltte rre sibling_Ns rotperiods i time js :
  forall st,
  exists st',
    for_each js (body_step env rre false sibling_Ns rotperiods i time) st
    = (None, st')
    /\ l_sess st' = l_sess st.
Proof.
  induction js as [| j js IH]; intros st; cbn [for_each].
  - eexists. split; reflexivity.
  - destruct (body_step_no_ltte rre sibling_Ns rotperiods i time j st)
      as (st1 & -> & Hs1).
    destruct (IH st1) as (st2 & -> & Hs2).
    exists st2. split; [reflexivity | congruence].
Qed.

(** Without LTTE the time loop makes one [integrate] call per entry of
    [times], in the order of the list, whatever that order is. *)
Lemma times_no_ltte rre sibling_Ns rotperiods its :
  forall st,
  exists st',
    for_each its (time_step env rre false sibling_Ns rotperiods) st = (None, st')
    /\ trace (l_sess st') = trace (l_sess st) ++ map snd its.
Proof.
  induction its as [| [i time] its IH]; intros st; cbn [for_each].
  - exists st. split; [reflexivity |]. cbn. now rewrite app_nil_r.
  - unfold time_step at 1.
    destruct (bodies_no_ltte rre sibling_Ns rotperiods i time
                (seq 0 (length (sim_particles
                                  (sim (integrate (l_sess st) time true)))))
                (mkLoop (integrate (l_sess st) time true) (l_pos st) (l_euler st)))
      as (st1 & -> & Hs1).
    destruct (IH st1) as (st2 & -> & Hs2).
    exists st2. split; [reflexivity |].
    rewrite Hs2, Hs1. cbn. now rewrite <- app_assoc.
Qed.

Lemma map_snd_enumerate_from {A : Type} (l : list A) :
  forall k, map snd (enumerate_from k l) = l.
Proof.
  induction l as [| a l IH]; intros k; cbn; [reflexivity | now rewrite IH].
Qed.

(** The run with LTTE off: no test on the order of [times] stands between
    the call and its [integrate] calls. *)
Lemma rebound_run_no_ltte b times compute rre kwargs :
  let b' := run_delayed_constraints b in
  let t0 := get_value b' "t0" "d" None "system" in
  _can_rebound env = true ->
  (as_bool (compute_get_value b' compute "gr" kwargs) = true ->
   _can_reboundx env = true) ->
  as_bool (compute_get_value b' compute "ltte" kwargs) = false ->
  (exists out,
      result (dynamics_from_bundle_rebound env b times compute rre kwargs) = inr out
      /\ out_times out = map (fun t => t - t0) times)
  /\ integrations (dynamics_from_bundle_rebound env b times compute rre kwargs)
     = map (fun t => t - t0) times.
Proof.
  intros b' t0 Hreb Hgr Hltte. unfold dynamics_from_bundle_rebound.
  fold b'. fold t0. rewrite Hreb, Hltte. cbn [negb].
  destruct (as_bool (compute_get_value b' compute "gr" kwargs)) eqn:Egr.
  - rewrite (Hgr eq_refl). cbn [negb andb].
    destruct (fold_left _ _ _) as [sm sibling_Ns].
    match goal with
    | |- context [for_each ?its (time_step env ?r false ?sb ?rot) ?st] =>
        destruct (times_no_ltte r sb rot its st) as (st' & -> & Htr)
    end.
    cbn in Htr. unfold enumerate in Htr. rewrite map_snd_enumerate_from in Htr.
    cbn. split; [eexists; split; reflexivity | exact Htr].
  - cbn [negb andb].
    destruct (fold_left _ _ _) as [sm sibling_Ns].
    match goal with
    | |- context [for_each ?its (time_step env ?r false ?sb ?rot) ?st] =>
        destruct (times_no_ltte r sb rot its st) as (st' & -> & Htr)
    end.
    cbn in Htr. unfold enumerate in Htr. rewrite map_snd_enumerate_from in Htr.
    cbn. split; [eexists; split; reflexivity | exact Htr].
Qed.

(** C2 (amended): neither driver tests the order of [times].  With rebound
    available and LTTE off, every value [dynamics_from_bundle_rebound]
    returns has the times [times[i] - t0], and the simulation was
    integrated to [times[i] - t0] once per entry, in the order given.
    Without [return_roche_euler] the call does return, for a bundle whose
    sibling stars are stars of the hierarchy ([starrefs.index] finds them)
    and whose Keplerian state at [t0] has one row of one entry per star
    ([xs[i][0]] exists).  [dynamics_bs] hands [times] to photodynam as they
    are and returns its ['t']. *)
Theorem nbody_times_not_checked b times compute kwargs :
  let b' := run_delayed_constraints b in
  let t0 := get_value b' "t0" "d" None "system" in
  _can_rebound env = true ->
  (as_bool (compute_get_value b' compute "gr" kwargs) = true ->
   _can_reboundx env = true) ->
  as_bool (compute_get_value b' compute "ltte" kwargs) = false ->
  (forall starref s,
      starref ∈ get_stars b' -> s ∈ get_stars_of_sibling_of b' starref ->
      s ∈ get_stars b') ->
  arrays_shaped (length (get_stars b')) 1
                (keplerian_dynamics_from_bundle b' [t0] compute) ->
  (exists out,
      result (dynamics_from_bundle_rebound env b times compute false kwargs)
      = inr out)
  /\ (forall rre out,
        result (dynamics_from_bundle_rebound env b times compute rre kwargs)
        = inr out ->
        out_times out = map (fun t => t - t0) times
        /\ integrations
             (dynamics_from_bundle_rebound env b times compute rre kwargs)
           = map (fun t => t - t0) times)
  /\ forall masses smas eccs incls per0s long_ans mean_anoms
            t0' vgamma stepsize orbiterror ltte,
       bs_ts (dynamics_bs env times masses smas eccs incls per0s long_ans
                mean_anoms t0' vgamma stepsize orbiterror ltte false)
       = d_t (do_dynamics times masses smas eccs incls per0s long_ans
                mean_anoms t0' stepsize orbiterror ltte false).
Proof.
  intros b' t0 Hreb Hgr Hltte _ _.
  split; [| split].
  - destruct (rebound_run_no_ltte b times compute false kwargs Hreb Hgr Hltte)
      as [(out & Hout & _) _].
    exists out. exact Hout.
  - intros rre out Hout.
    destruct (rebound_run_no_ltte b times compute rre kwargs Hreb Hgr Hltte)
      as [(out' & Hout' & Htimes) Htr].
    rewrite Hout in Hout'. injection Hout' as <-.
    split; [exact Htimes | exact Htr].
  - intros. reflexivity.
Qed.

(** C6 (amended): in [dynamics_from_bundle_rebound], when rebound is not
    available, or GR is asked for and reboundx is not available, the call
    raises [ImportError] (the specification's UnsupportedConfigurationError)
    before any simulation exists: no [integrate] call is made and no value
    is returned.  The entry point [dynamics_from_bundle] makes no such
    test: its result does not depend on the two flags. *)
Theorem rebound_unavailable_raises b times compute rre kwargs :
  _can_rebound env = false
  \/ (as_bool (compute_get_value (run_delayed_constraints b) compute "gr" kwargs)
      = true
      /\ _can_reboundx env = false) ->
  (exists msg,
      result (dynamics_from_bundle_rebound env b times compute rre kwargs)
      = inl (ImportError msg))
  /\ integrations (dynamics_from_bundle_rebound env b times compute rre kwargs) = []
  /\ forall can_rebound can_reboundx,
       dynamics_from_bundle
         (mkEnv can_rebound can_reboundx (au_to_solrad env) (c_AU_d env)
                (G_solRad env) (G_AU env))
         b times compute rre kwargs
       = dynamics_from_bundle env b times compute rre kwargs.
Proof.
  intros Hcase. unfold dynamics_from_bundle_rebound.
  destruct (_can_rebound env) eqn:Ereb; cbn [negb].
  - destruct Hcase as [Hno | [Hgr Hnox]]; [discriminate |].
    rewrite Hgr, Hnox. cbn. split; [eexists |]; [| split]; reflexivity.
  - cbn. split; [eexists |]; [| split]; reflexivity.
Qed.

(** With LTTE on, the Roche/Euler elements of the star after [j] are
    computed from the simulation as the correction of star [j] left it. *)
Lemma euler_of_next_star_after_ltte sibling_Ns rotperiods i time j st p s' :
  particle_ltte env (l_sess st) j time = (inr p, s') ->
  exists st1,
    body_step env true true sibling_Ns rotperiods i time j st = (None, st1)
    /\ l_sess st1 = s'
    /\ l_euler (snd (body_step env true true sibling_Ns rotperiods i time (S j) st1))
       = store_euler (l_euler st1) (S j) i
           (calculate_euler sibling_Ns rotperiods s' (S j)).
Proof.
  intros Hltte. unfold body_step at 1. rewrite Hltte.
  eexists. split; [reflexivity |]. split; [reflexivity |].
  unfold body_step. cbn [l_sess l_euler l_pos].
  destruct (particle_ltte env s' (S j) time) as [[ex | q] s2]; reflexivity.
Qed.


End NBodyFacts.

(** ** The rebound driver on the two-star bundle *)

Section TwoStars.
Import RealModel RealFacts.
Local Open Scope R_scope.

Variable orbit_of : Particle R -> Particle R -> Orbit R.
Let env := env_R true true.
Let RB := drift_rebound orbit_of.
Let c := c_AU_d env.
Let sess := two_stars_session orbit_of.

Lemma c_pos : 0 < c.
Proof. unfold c, env, env_R, c_AU_d. lra. Qed.

Lemma drift_two_stars a b e :
  drift_integrate (two_stars_at a) b e = two_stars_at b.
Proof.
  unfold drift_integrate, two_stars_at, drift. cbn.
  f_equal. repeat (f_equal; try lra).
Qed.

Lemma integrate_sess a t e tr :
  @integrate R RB (sess a tr) t e = sess t (tr ++ [t]).
Proof.
  unfold integrate, sess, two_stars_session.
  cbn [sim trace sim_integrate RB drift_rebound].
  now rewrite drift_two_stars.
Qed.

Lemma residual_same j t_obs t tr :
  @residual R R_ops RB env j t_obs t (sess t tr)
  = (t - p_z (particle_at (sess t tr) j) / c - t_obs, sess t tr).
Proof.
  unfold residual. change (sim_t (sim (sess t tr))) with t.
  unfold fne. rewrite feq_true by reflexivity. reflexivity.
Qed.

Lemma residual_move j t_obs a t tr :
  a <> t ->
  @residual R R_ops RB env j t_obs t (sess a tr)
  = (t - p_z (particle_at (sess t (tr ++ [t])) j) / c - t_obs,
     sess t (tr ++ [t])).
Proof.
  intros Hne. unfold residual. change (sim_t (sim (sess a tr))) with a.
  unfold fne. rewrite feq_false by exact Hne. cbn [negb].
  rewrite integrate_sess. reflexivity.
Qed.

Lemma z_primary t tr : p_z (particle_at (sess t tr) 0) = c.
Proof. reflexivity. Qed.

Lemma z_secondary t tr : p_z (particle_at (sess t tr) 1) = 0.
Proof. reflexivity. Qed.

(** The root finder on the primary ([z = c]): from the simulation at the
    observation time [t] it returns [t + 1] and leaves the simulation at
    [t + 1]. *)
Lemma newton_primary t tr :
  @newton R secant_scipy _ (@residual R R_ops RB env 0 t) t (sess t tr)
  = (inr (t + 1), sess (t + 1) (tr ++ [t + 1])).
Proof.
  cbn [newton secant_scipy]. unfold secant_newton.
  rewrite residual_same, residual_move by lra.
  rewrite !z_primary. pose proof c_pos as Hc.
  destruct (Req_dec_T (t + 1 - c / c - t) (t - c / c - t)) as [Heq | Hne];
    [lra |].
  assert (Hroot : t + 1 - (t + 1 - c / c - t) * (t + 1 - t)
                          / (t + 1 - c / c - t - (t - c / c - t)) = t + 1)
    by (field; lra).
  now rewrite Hroot.
Qed.

Lemma ltte_primary t tr :
  @particle_ltte R R_ops RB secant_scipy env (sess t tr) 0 t
  = (inr (particle_at (sess (t + 1) []) 0), sess (t + 1) (tr ++ [t + 1])).
Proof.
  unfold particle_ltte. rewrite newton_primary.
  change (sim_t (sim (sess (t + 1) (tr ++ [t + 1])))) with (t + 1).
  unfold fne. rewrite feq_true by reflexivity. reflexivity.
Qed.

(** The secondary ([z = 0]), reached with the simulation left at [t + 1]
    by the primary: its emission time is [t], and the simulation is moved
    back there. *)
Lemma ltte_secondary t tr :
  @particle_ltte R R_ops RB secant_scipy env (sess (t + 1) tr) 1 t
  = (inr (particle_at (sess t []) 1), sess t (tr ++ [t; t + 1; t])).
Proof.
  unfold particle_ltte. cbn [newton secant_scipy]. unfold secant_newton.
  rewrite residual_move, residual_move by lra.
  rewrite !z_secondary. pose proof c_pos as Hc.
  destruct (Req_dec_T (t + 1 - 0 / c - t) (t - 0 / c - t)) as [Heq | Hne].
  { exfalso. unfold Rdiv in Heq. lra. }
  assert (Hroot : t + 1 - (t + 1 - 0 / c - t) * (t + 1 - t)
                          / (t + 1 - 0 / c - t - (t - 0 / c - t)) = t)
    by (field; lra).
  rewrite Hroot.
  change (sim_t (sim (sess (t + 1) ((tr ++ [t]) ++ [t + 1])))) with (t + 1).
  unfold fne. rewrite feq_false by lra. cbn [negb].
  rewrite integrate_sess, <- !app_assoc. reflexivity.
Qed.

(** What the driver sets up for [two_stars] with [ltte=True]. *)
Lemma two_stars_setup rre times :
  @dynamics_from_bundle_rebound R R_ops RB secant_scipy table_bundle env
     two_stars times None rre kw_ltte
  = @finish R RB rre (map (fun t => t - 0) times)
      (for_each (enumerate (map (fun t => t - 0) times))
         (@time_step R R_ops RB secant_scipy env rre true
            [[1%nat]; [0%nat]] (if rre then [1; 1] else []))
         (@mkLoop R RB
            (@mkSession R RB
               (mkDrift 0
                  [mkParticle (1 * G_solRad env) 0 0 c 1 0 0;
                   mkParticle (1 * G_solRad env) 2 0 0 (-1) 0 0]
                  (1 / 100) "ias15" false) [])
            (let z := zeros 2 (length (map (fun t => t - 0) times)) in
             mkArrays z z z z z z)
            (let z := zeros 2 (length (map (fun t => t - 0) times)) in
             if rre then mkEulerArrays z z z z z z z z z z z z
             else mkEulerArrays [] [] [] [] [] [] [] [] [] [] [] []))).
Proof. destruct rre; reflexivity. Qed.

Lemma built_sim :
  mkDrift 0
    [mkParticle (1 * G_solRad env) 0 0 c 1 0 0;
     mkParticle (1 * G_solRad env) 2 0 0 (-1) 0 0]
    (1 / 100) "ias15" false
  = two_stars_at 0.
Proof.
  unfold two_stars_at. fold env. fold c. f_equal. repeat (f_equal; try lra).
Qed.

(** The whole run for one requested time 0 with [ltte=True] and
    [return_roche_euler=True]. *)
Lemma two_stars_ltte_run :
  @dynamics_from_bundle_rebound R R_ops RB secant_scipy table_bundle
     env two_stars [0] None true kw_ltte
  = (let z := zeros 2 1 in
     mkOutcome
       (inr (mkOutput [0]
               (store_particle
                  (store_particle (mkArrays z z z z z z) 0 0
                     (particle_at (sess (0 + 1) []) 0))
                  1 0 (particle_at (sess 0 []) 1))
               (Some
                  (store_euler
                     (store_euler (mkEulerArrays z z z z z z z z z z z z) 0 0
                        (@calculate_euler R R_ops RB [[1%nat]; [0%nat]] [1; 1]
                           (sess 0 []) 0))
                     1 0
                     (@calculate_euler R R_ops RB [[1%nat]; [0%nat]] [1; 1]
                        (sess (0 + 1) []) 1)))))
       [0; 0 + 1; 0; 0 + 1; 0]).
Proof.
  rewrite two_stars_setup.
  cbn [map enumerate enumerate_from length]. rewrite built_sim.
  replace (0 - 0) with 0 by lra.
  change (@mkSession R RB (two_stars_at 0) []) with (sess 0 []).
  cbn [for_each]. unfold time_step at 1. cbn [l_sess l_pos l_euler].
  rewrite integrate_sess.
  change (length (sim_particles (sim (sess 0 ([] ++ [0]))))) with 2%nat.
  cbn [seq for_each].
  unfold body_step at 1. cbn [l_sess l_pos l_euler].
  rewrite ltte_primary.
  unfold body_step at 1. cbn [l_sess l_pos l_euler].
  rewrite ltte_secondary.
  reflexivity.
Qed.

(** C5: two stars, [ltte=True], [return_roche_euler=True], one requested
    time 0.  The Roche/Euler elements of star 1 are computed from the
    simulation at time 1, where the LTTE correction of star 0 left it, and
    not from the state at the requested time 0 (where both stars are
    elsewhere); the simulation is moved five times for the one requested
    time, to 0, 1, 0, 1 and 0. *)
Theorem rebound_euler_after_ltte_of_previous_star :
  let run := @dynamics_from_bundle_rebound R R_ops RB secant_scipy table_bundle
               env two_stars [0] None true kw_ltte in
  let E0 := @calculate_euler R R_ops RB [[1%nat]; [0%nat]] [1; 1] (sess 0 []) 0 in
  let E1 := @calculate_euler R R_ops RB [[1%nat]; [0%nat]] [1; 1] (sess 1 []) 1 in
  let z := zeros 2 1 in
  exists out,
    result run = inr out
    /\ out_euler out
       = Some (store_euler
                 (store_euler (mkEulerArrays z z z z z z z z z z z z) 0 0 E0)
                 1 0 E1)
    /\ integrations run = [0; 1; 0; 1; 0]
    /\ particle_at (sess 1 []) 1 <> particle_at (sess 0 []) 1
    /\ particle_at (sess 1 []) 0 <> particle_at (sess 0 []) 0.
Proof.
  intros run E0 E1 z. unfold run. rewrite two_stars_ltte_run.
  replace (0 + 1) with 1 by lra. cbn zeta. cbn [result integrations].
  eexists. split; [reflexivity |]. cbn [out_euler].
  split; [reflexivity |]. split; [reflexivity |].
  split.
  - unfold particle_at, sess, two_stars_session, two_stars_at. cbn.
    intros Hp. apply (f_equal p_x) in Hp. cbn in Hp. lra.
  - unfold particle_at, sess, two_stars_session, two_stars_at. cbn.
    intros Hp. apply (f_equal p_x) in Hp. cbn in Hp. lra.
Qed.

End TwoStars.

(** ** Closed runs of the rebound driver *)

Section ClosedRuns.
Import RealModel RealFacts.
Local Open Scope R_scope.

(** C2, counterexample: the times [2, 1] are not increasing, yet the call
    returns a value and has integrated, first to 2 and then back to 1. *)
Lemma rebound_runs_on_decreasing_times :
  (exists out,
      result (@dynamics_from_bundle_rebound R R_ops drift_two_body secant_scipy
                table_bundle (env_R true true) two_stars [2; 1] None false ∅)
      = inr out)
  /\ integrations
       (@dynamics_from_bundle_rebound R R_ops drift_two_body secant_scipy
          table_bundle (env_R true true) two_stars [2; 1] None false ∅)
     = [2 - 0; 1 - 0]
  /\ ~ 2 < 1.
Proof.
  destruct (@rebound_run_no_ltte R R_ops drift_two_body secant_scipy
              table_bundle (env_R true true) two_stars [2; 1] None false ∅)
    as [(out & Hout & _) Htr].
  - reflexivity.
  - intros _. reflexivity.
  - reflexivity.
  - split; [exists out; exact Hout |]. split; [exact Htr | lra].
Qed.

(** C2, witness: the same call. *)
Lemma nbody_times_not_checked_witness :
  (exists out,
      result (@dynamics_from_bundle_rebound R R_ops drift_two_body secant_scipy
                table_bundle (env_R true true) two_stars [2; 1] None false ∅)
      = inr out)
  /\ (forall rre out,
        result (@dynamics_from_bundle_rebound R R_ops drift_two_body
                  secant_scipy table_bundle (env_R true true) two_stars [2; 1]
                  None rre ∅)
        = inr out ->
        out_times out = map (fun t => t - 0) [2; 1]
        /\ integrations
             (@dynamics_from_bundle_rebound R R_ops drift_two_body secant_scipy
                table_bundle (env_R true true) two_stars [2; 1] None rre ∅)
           = map (fun t => t - 0) [2; 1])
  /\ forall masses smas eccs incls per0s long_ans mean_anoms
            t0' vgamma stepsize orbiterror ltte,
       bs_ts (@dynamics_bs R R_ops sample_photodynam (env_R true true) [2; 1]
                masses smas eccs incls per0s long_ans
                mean_anoms t0' vgamma stepsize orbiterror ltte false)
       = d_t (do_dynamics [2; 1] masses smas eccs incls per0s long_ans
                mean_anoms t0' stepsize orbiterror ltte false).
Proof.
  apply (@nbody_times_not_checked R R_ops drift_two_body secant_scipy
           table_bundle sample_photodynam (env_R true true) two_stars [2; 1]
           None ∅).
  - reflexivity.
  - intros _. reflexivity.
  - reflexivity.
  - intros starref s _. cbn [get_stars_of_sibling_of get_stars table_bundle
                             run_delayed_constraints two_stars tb_siblings
                             tb_stars].
    destruct (String.eqb starref "primary"); intros Hs;
      apply list_elem_of_singleton in Hs as ->;
      repeat first [apply list_elem_of_here | apply list_elem_of_further].
  - unfold arrays_shaped, shaped. cbn. repeat split; repeat constructor.
Defined.

(** C6, witness: rebound is not available. *)
Lemma rebound_unavailable_raises_witness :
  (exists msg,
      result (@dynamics_from_bundle_rebound R R_ops drift_two_body secant_scipy
                table_bundle (env_R false false) two_stars [0] None false ∅)
      = inl (ImportError msg))
  /\ integrations
       (@dynamics_from_bundle_rebound R R_ops drift_two_body secant_scipy
          table_bundle (env_R false false) two_stars [0] None false ∅)
     = []
  /\ forall can_rebound can_reboundx,
       @dynamics_from_bundle R R_ops sample_photodynam table_bundle
         (mkEnv can_rebound can_reboundx (au_to_solrad (env_R false false))
                (c_AU_d (env_R false false)) (G_solRad (env_R false false))
                (G_AU (env_R false false)))
         two_stars [0] None false ∅
       = @dynamics_from_bundle R R_ops sample_photodynam table_bundle
           (env_R false false) two_stars [0] None false ∅.
Proof.
  apply (@rebound_unavailable_raises R R_ops drift_two_body secant_scipy
           table_bundle sample_photodynam (env_R false false) two_stars [0]
           None false ∅).
  left. reflexivity.
Defined.

(** C6, counterexample: neither rebound nor reboundx is available and GR is
    asked for ([gr=True]).  The rebound driver raises, but the N-body run
    through the entry point [dynamics_from_bundle] returns the times. *)
Lemma dynamics_from_bundle_runs_without_rebound :
  _can_rebound (env_R false false) = false
  /\ _can_reboundx (env_R false false) = false
  /\ @as_bool R R_ops
       (compute_get_value two_stars None "gr" {["gr" := VBool true]}) = true
  /\ (exists msg,
        result (@dynamics_from_bundle_rebound R R_ops drift_two_body
                  secant_scipy table_bundle (env_R false false) two_stars
                  [0; 1] None false {["gr" := VBool true]})
        = inl (ImportError msg))
  /\ bs_ts (@dynamics_from_bundle R R_ops sample_photodynam table_bundle
              (env_R false false) two_stars [0; 1] None false
              {["gr" := VBool true]})
     = [0; 1].
Proof.
  split; [reflexivity |]. split; [reflexivity |]. split; [reflexivity |].
  split; [eexists |]; reflexivity.
Qed.



End ClosedRuns.

(** ** The photodynam driver *)

Section PhotodynamFacts.
Context {F : Type} `{FloatOps F} `{Photodynam F} `{BundleAPI F}.
Variable env : Env F.
Local Open Scope fl_scope.

Lemma lookup_map {A B : Type} (f : A -> B) (l : list A) (i : nat) :
  map f l !! i = option_map f (l !! i).
Proof.
  revert i. induction l as [| a l IH]; intros [| i]; cbn; try reflexivity.
  apply IH.
Qed.

Lemma item_scale_l k a i j :
  item (scale_l k a) i j = option_map (fun v => k * v) (item a i j).
Proof.
  unfold item, scale_l. cbn [rows]. rewrite lookup_map.
  destruct (rows a !! i) as [row |]; cbn; [apply lookup_map | reflexivity].
Qed.

Lemma item_scale_r a k i j :
  item (scale_r a k) i j = option_map (fun v => v * k) (item a i j).
Proof.
  unfold item, scale_r. cbn [rows]. rewrite lookup_map.
  destruct (rows a !! i) as [row |]; cbn; [apply lookup_map | reflexivity].
Qed.

(** [a.T[j][i]] is [a[i][j]]. *)
Lemma item_transpose a i j :
  rectangular a -> item (transpose a) j i = item a i j.
Proof.
  intros Hrect. unfold item, transpose. cbn [rows]. rewrite lookup_map.
  destruct (decide (j < ncols a)%nat) as [Hj | Hj].
  - rewrite lookup_seq_lt by exact Hj. cbn. rewrite lookup_map.
    destruct (rows a !! i) as [row |] eqn:Erow; cbn; [| reflexivity].
    assert (Hlen : length row = ncols a).
    { unfold rectangular in Hrect. rewrite Forall_lookup in Hrect.
      exact (Hrect i row Erow). }
    destruct (lookup_lt_is_Some_2 row j) as [v Hv]; [lia |].
    rewrite Hv. f_equal. apply nth_lookup_Some with (d := zero) in Hv.
    exact Hv.
  - rewrite lookup_seq_ge by lia. cbn.
    destruct (rows a !! i) as [row |] eqn:Erow; [| reflexivity].
    assert (Hlen : length row = ncols a).
    { unfold rectangular in Hrect. rewrite Forall_lookup in Hrect.
      exact (Hrect i row Erow). }
    symmetry. apply lookup_ge_None_2. lia.
Qed.

(** C10: [x], [y], [vx], [vy] of star [j] at time index [i] are the
    photodynam values multiplied by -1 and then by [au_to_solrad]; [z] and
    [vz] are multiplied by [au_to_solrad] only. *)
Theorem dynamics_bs_sign_convention
    times masses smas eccs incls per0s long_ans mean_anoms
    t0 vgamma stepsize orbiterror ltte rre i j :
  let d := do_dynamics times masses smas eccs incls per0s long_ans mean_anoms
             t0 stepsize orbiterror ltte rre in
  let out := dynamics_bs env times masses smas eccs incls per0s long_ans
               mean_anoms t0 vgamma stepsize orbiterror ltte rre in
  let au := au_to_solrad env in
  rectangular (d_x d) -> rectangular (d_y d) -> rectangular (d_z d) ->
  rectangular (d_vx d) -> rectangular (d_vy d) -> rectangular (d_vz d) ->
  item (bs_xs out) j i = option_map (fun v => lit (-1) * v * au) (item (d_x d) i j)
  /\ item (bs_ys out) j i = option_map (fun v => lit (-1) * v * au) (item (d_y d) i j)
  /\ item (bs_vxs out) j i = option_map (fun v => lit (-1) * v * au) (item (d_vx d) i j)
  /\ item (bs_vys out) j i = option_map (fun v => lit (-1) * v * au) (item (d_vy d) i j)
  /\ item (bs_zs out) j i = option_map (fun v => v * au) (item (d_z d) i j)
  /\ item (bs_vzs out) j i = option_map (fun v => v * au) (item (d_vz d) i j).
Proof.
  intros d out au Hx Hy Hz Hvx Hvy Hvz.
  assert (Hflip : forall a, rectangular a ->
            item (scale_r (scale_l (lit (-1)) (transpose a)) au) j i
            = option_map (fun v => lit (-1) * v * au) (item a i j)).
  { intros a Ha. rewrite item_scale_r, item_scale_l, item_transpose by exact Ha.
    now destruct (item a i j). }
  assert (Hkeep : forall a, rectangular a ->
            item (scale_r (transpose a) au) j i
            = option_map (fun v => v * au) (item a i j)).
  { intros a Ha. rewrite item_scale_r, item_transpose by exact Ha.
    reflexivity. }
  unfold out, dynamics_bs. fold d. fold au.
  destruct rre; cbn [bs_xs bs_ys bs_zs bs_vxs bs_vys bs_vzs];
    repeat split; auto.
Qed.

(** The photodynam driver reads its keyword arguments through the lookup
    of ['ltte'] alone. *)
Lemma dynamics_from_bundle_bs_ltte b times compute rre kw1 kw2 :
  compute_get_value b compute "ltte" kw1 = compute_get_value b compute "ltte" kw2 ->
  dynamics_from_bundle_bs env b times compute rre kw1
  = dynamics_from_bundle_bs env b times compute rre kw2.
Proof.
  intros Hltte. unfold dynamics_from_bundle_bs. now rewrite Hltte.
Qed.

(** C9: two calls whose keyword arguments differ in [stepsize] and
    [orbiterror] only return the same value, and the integration is run
    with [stepsize = 0.01] and [orbiterror = 1e-16]; this supposes that the
    bundle's lookup of ['ltte'] does not look at those two keywords. *)
Theorem dynamics_from_bundle_bs_fixed_stepsize b times compute rre
    (kw1 kw2 : gmap string (Value F)) :
  (forall key, key <> "stepsize" -> key <> "orbiterror" ->
               kw1 !! key = kw2 !! key) ->
  (forall kwa kwb : gmap string (Value F),
      (forall key, key <> "stepsize" -> key <> "orbiterror" ->
                   kwa !! key = kwb !! key) ->
      compute_get_value b compute "ltte" kwa
      = compute_get_value b compute "ltte" kwb) ->
  dynamics_from_bundle_bs env b times compute rre kw1
  = dynamics_from_bundle_bs env b times compute rre kw2
  /\ exists masses smas eccs incls per0s long_ans mean_anoms t0 vgamma ltte,
       dynamics_from_bundle_bs env b times compute rre kw1
       = dynamics_bs env times masses smas eccs incls per0s long_ans mean_anoms
           t0 vgamma (lit (1 # 100)) (lit (1 # 10000000000000000)) ltte rre.
Proof.
  intros Hsame Hlookup. split.
  - apply dynamics_from_bundle_bs_ltte. apply Hlookup. exact Hsame.
  - unfold dynamics_from_bundle_bs. do 10 eexists. reflexivity.
Qed.

End PhotodynamFacts.

(** ** Closed runs of the photodynam driver *)

Section ClosedPhotodynam.
Import RealModel RealFacts.
Local Open Scope R_scope.

(** C9, witness: [stepsize=1] against no keyword argument at all. *)
Lemma dynamics_from_bundle_bs_fixed_stepsize_witness :
  @dynamics_from_bundle_bs R R_ops sample_photodynam table_bundle
     (env_R true true) two_stars [0; 1] None false {["stepsize" := VFloat 1]}
  = @dynamics_from_bundle_bs R R_ops sample_photodynam table_bundle
      (env_R true true) two_stars [0; 1] None false ∅
  /\ exists masses smas eccs incls per0s long_ans mean_anoms t0 vgamma ltte,
       @dynamics_from_bundle_bs R R_ops sample_photodynam table_bundle
          (env_R true true) two_stars [0; 1] None false
          {["stepsize" := VFloat 1]}
       = @dynamics_bs R R_ops sample_photodynam (env_R true true) [0; 1]
           masses smas eccs incls per0s long_ans mean_anoms
           t0 vgamma (lit (1 # 100)) (lit (1 # 10000000000000000)) ltte false.
Proof.
  apply (@dynamics_from_bundle_bs_fixed_stepsize R R_ops sample_photodynam
           table_bundle (env_R true true) two_stars [0; 1] None false
           {["stepsize" := VFloat 1]} ∅).
  - intros key Hstep _. rewrite lookup_singleton_ne by congruence.
    now rewrite lookup_empty.
  - intros kwa kwb Hsame. cbn [compute_get_value table_bundle].
    rewrite (Hsame "ltte") by discriminate. reflexivity.
Defined.

(** C10, witness: two times and two stars, read at time index 1, star 0. *)
Lemma dynamics_bs_sign_convention_witness :
  let d := @do_dynamics R sample_photodynam [0; 1] [1; 2] [] [] [] [] [] []
             0 (1 / 100) (1 / 100) false false in
  let out := @dynamics_bs R R_ops sample_photodynam (env_R true true)
               [0; 1] [1; 2] [] [] [] [] [] [] 0 0 (1 / 100) (1 / 100)
               false false in
  let au := au_to_solrad (env_R true true) in
  item (bs_xs out) 0 1
    = option_map (fun v => fmul (fmul (lit (-1)) v) au) (item (d_x d) 1 0)
  /\ item (bs_ys out) 0 1
     = option_map (fun v => fmul (fmul (lit (-1)) v) au) (item (d_y d) 1 0)
  /\ item (bs_vxs out) 0 1
     = option_map (fun v => fmul (fmul (lit (-1)) v) au) (item (d_vx d) 1 0)
  /\ item (bs_vys out) 0 1
     = option_map (fun v => fmul (fmul (lit (-1)) v) au) (item (d_vy d) 1 0)
  /\ item (bs_zs out) 0 1 = option_map (fun v => fmul v au) (item (d_z d) 1 0)
  /\ item (bs_vzs out) 0 1 = option_map (fun v => fmul v au) (item (d_vz d) 1 0).
Proof.
  apply (@dynamics_bs_sign_convention R R_ops sample_photodynam
           (env_R true true) [0; 1] [1; 2] [] [] [] [] [] [] 0 0
           (1 / 100) (1 / 100) false false 1%nat 0%nat);
    repeat constructor.
Defined.

End ClosedPhotodynam.

(** ** [_ensure_tuple] *)

Section EnsureTupleFacts.
Context {A : Type}.
Variable iterate : A -> option (list (PyValue A)).

(** X22: what [_ensure_tuple] returns is a tuple, which a second call
    returns as it is.  It has the items of the tuple or list passed in;
    for an array with at least one axis, one item per entry of the
    outermost axis, each converted by [tolist] (inner levels are lists,
    not tuples); for a 0-d array, the items of iterating over its
    scalar. *)
Theorem ensure_tuple_returns_tuple (item t : PyValue A) :
  _ensure_tuple iterate item = inr t ->
  _ensure_tuple iterate t = inr t
  /\ exists items,
       t = PyTuple items
       /\ match item with
          | PyTuple l => items = l
          | PyList l => items = l
          | PyArray (NdN l) => items = map tolist l
          | PyArray (Nd0 scalar) => py_iter iterate scalar = Some items
          | PyOther _ => False
          end.
Proof.
  destruct item as [l | l | [v | l] | x]; cbn; intros Ht; try discriminate.
  - injection Ht as <-. split; [reflexivity |]. eexists. split; reflexivity.
  - injection Ht as <-. split; [reflexivity |]. eexists. split; reflexivity.
  - unfold py_tuple in Ht. destruct (py_iter iterate v) as [items |] eqn:Ev;
      [| discriminate].
    injection Ht as <-. split; [reflexivity |]. eexists. split; reflexivity.
  - injection Ht as <-. split; [reflexivity |]. eexists. split; reflexivity.
Qed.

(** X23: [_ensure_tuple] raises in exactly two cases: on an object that is
    neither tuple, list nor array, with [NotImplementedError], and on a 0-d
    array whose scalar [tuple] cannot iterate over (a number, or another
    0-d array), with [TypeError]. *)
Theorem ensure_tuple_raises (item : PyValue A) (e : TupleError) :
  _ensure_tuple iterate item = inl e
  <-> (exists x, item = PyOther x /\ e = TupleNotImplementedError)
      \/ (exists scalar,
            item = PyArray (Nd0 scalar)
            /\ py_iter iterate scalar = None
            /\ e = TupleTypeError).
Proof.
  split.
  - destruct item as [l | l | [v | l] | x]; cbn; intros He; try discriminate.
    + unfold py_tuple in He. destruct (py_iter iterate v) as [items |] eqn:Ev;
        [discriminate |].
      injection He as <-. right. eauto.
    + injection He as <-. left. eauto.
  - intros [(x & -> & ->) | (v & -> & Hv & ->)]; cbn; [reflexivity |].
    unfold py_tuple. now rewrite Hv.
Qed.

End EnsureTupleFacts.

(** X22, witness: the 0-d array of the string ["ab"], whose [tolist] is the
    string; the result is the tuple of its characters. *)
Lemma ensure_tuple_returns_tuple_witness :
  _ensure_tuple str_items (PyTuple [PyOther "a"; PyOther "b"])
  = inr (PyTuple [PyOther "a"; PyOther "b"])
  /\ exists items,
       PyTuple [PyOther "a"; PyOther "b"] = PyTuple items
       /\ py_iter str_items (PyOther "ab") = Some items.
Proof.
  apply (ensure_tuple_returns_tuple str_items
           (PyArray (Nd0 (PyOther "ab")))
           (PyTuple [PyOther "a"; PyOther "b"])).
  reflexivity.
Defined.

(** The 0-d array of a number: [tuple(item.tolist())] raises [TypeError],
    not the [NotImplementedError] of the last branch. *)
Lemma ensure_tuple_number_array :
  _ensure_tuple (fun _ : nat => None) (PyArray (Nd0 (PyOther 5%nat)))
  = inl TupleTypeError.
Proof. reflexivity. Qed.

(** ** The orbit [keplerian_from_cartesian] returns *)

Section KeplerianOrbit.
Context {F : Type} `{FloatOps F}.
Local Open Scope fl_scope.

(** The semi-major axis and period of a returned orbit. *)
Lemma kfc_sizes (positions velocities : Vec3 F) (mass_tot t0 G : F) k :
  keplerian_from_cartesian positions velocities mass_tot t0 G = inr k ->
  k_a k = (- (mass_tot * G))
          / (two * (norm velocities ** 2 / two - mass_tot * G / norm positions))
  /\ k_period k = ((four * f_pi ** 2 * k_a k ** 3) / (mass_tot * G)) ** (1 # 2)
  /\ (ecc positions velocities (mass_tot * G) >=? one) = false.
Proof.
  unfold keplerian_from_cartesian.
  change (norm (e_vec positions velocities (mass_tot * G)))
    with (ecc positions velocities (mass_tot * G)).
  destruct (ecc positions velocities (mass_tot * G) >=? one); [discriminate |].
  cbn zeta.
  destruct (fabs _ <? tol_incl), (ecc positions velocities (mass_tot * G) <? tol_ecc);
    intros Hk; injection Hk as <-; cbn; repeat split.
Qed.

(** X8: [t0] enters [keplerian_from_cartesian] only through [t0_perpass]:
    a call with another [t0] raises the same exception or returns the same
    elements with [t0_perpass = t0 - mean_anom * period / (2 pi)]. *)
Theorem kfc_t0_shifts_epoch_only (P V : Vec3 F) (m t0 t0' G : F) :
  keplerian_from_cartesian P V m t0' G
  = match keplerian_from_cartesian P V m t0 G with
    | inl ex => inl ex
    | inr k =>
        inr (mkKep (k_a k) (k_e k) (k_period k) (k_incl k) (k_per0 k)
               (k_long_an k) (k_true_anom k) (k_mean_anom k)
               (t0' - (k_mean_anom k * k_period k) / (two * f_pi)))
    end.
Proof.
  unfold keplerian_from_cartesian.
  destruct (norm (e_vec P V (m * G)) >=? one); [reflexivity |].
  cbn zeta.
  destruct (fabs _ <? tol_incl), (norm (e_vec P V (m * G)) <? tol_ecc);
    reflexivity.
Qed.

End KeplerianOrbit.

(** ** The returned orbit over the real numbers *)

Section KeplerianOrbitReal.
Import RealModel RealFacts.
Local Open Scope R_scope.

Lemma norm_sq (a : Vec3 R) : norm a * norm a = c0 a * c0 a + c1 a * c1 a + c2 a * c2 a.
Proof. rewrite norm_R. apply sqrt_sqrt. nra. Qed.

Lemma norm_nonneg (a : Vec3 R) : 0 <= norm a.
Proof. rewrite norm_R. apply sqrt_pos. Qed.

Lemma lagrange (a b : Vec3 R) :
  norm (cross a b) * norm (cross a b)
  = (norm a * norm a) * (norm b * norm b) - dot a b * dot a b.
Proof.
  rewrite !norm_sq. unfold cross, dot. cbn. ring.
Qed.

(** The eccentricity from the energy and the angular momentum:
    [e^2 = 1 + 2 E h^2 / mu^2]. *)
Lemma ecc_energy (P V : Vec3 R) (mu : R) :
  0 < norm P -> mu <> 0 ->
  ecc P V mu * ecc P V mu
  = 1 + 2 * (norm V * norm V / 2 - mu / norm P)
          * (norm (h_vec P V) * norm (h_vec P V)) / (mu * mu).
Proof.
  intros Hr Hmu. unfold ecc, h_vec. rewrite lagrange.
  rewrite (norm_sq (e_vec P V mu)).
  unfold e_vec. rewrite sq_norm_R. rewrite (norm_sq V).
  unfold vdiv, vsub, smul. cbn [c0 c1 c2].
  cbn [fadd fsub fmul fdiv R_ops].
  pose proof (norm_sq P) as HP.
  set (r := norm P) in *.
  unfold dot. cbn [fadd fsub fmul fdiv R_ops].
  destruct P as [x y z], V as [u v w]. cbn [c0 c1 c2] in *.
  field_simplify_eq; [| lra].
  assert (HP2 : r ^ 2 = x ^ 2 + y ^ 2 + z ^ 2) by (rewrite <- !Rsqr_pow2; unfold Rsqr; exact HP).
  ring [HP2].
Qed.

Lemma R_pow_2 x : @fpow R R_ops x 2 = x * x.
Proof. change (@fpow R R_ops x 2) with (x ^ 2). ring. Qed.
Lemma R_pow_3 x : @fpow R R_ops x 3 = x * x * x.
Proof. change (@fpow R R_ops x 3) with (x ^ 3). ring. Qed.
Lemma R_pow_half x : @fpow R R_ops x (1 # 2) = sqrt x.
Proof. reflexivity. Qed.
Lemma four_R : @four R _ = 4.  Proof. unfold four. cbn. unfold Q2R. cbn. lra. Qed.

(** h^2 / mu = r + e_v . r *)
Lemma dot_e_vec_r (P V : Vec3 R) (mu : R) :
  0 < norm P -> mu <> 0 ->
  dot (e_vec P V mu) P
  = norm (h_vec P V) * norm (h_vec P V) / mu - norm P.
Proof.
  intros Hr Hmu. unfold h_vec. rewrite lagrange.
  unfold e_vec. rewrite sq_norm_R. rewrite (norm_sq V).
  unfold vdiv, vsub, smul, dot. cbn [c0 c1 c2].
  cbn [fadd fsub fmul fdiv R_ops].
  pose proof (norm_sq P) as HP.
  set (r := norm P) in *.
  destruct P as [x y z], V as [u v w]. cbn [c0 c1 c2] in *.
  assert (HP2 : r ^ 2 = x ^ 2 + y ^ 2 + z ^ 2)
    by (rewrite <- !Rsqr_pow2; unfold Rsqr; exact HP).
  field_simplify_eq; [| lra]. ring [HP2].
Qed.

Lemma cauchy_schwarz (a b : Vec3 R) :
  0 < norm a * norm b -> -1 <= dot a b / (norm a * norm b) <= 1.
Proof.
  intros Hn.
  assert (Hsq : dot a b * dot a b <= (norm a * norm b) * (norm a * norm b)).
  { pose proof (lagrange a b) as HL.
    pose proof (Rle_0_sqr (norm (cross a b))) as Hc. unfold Rsqr in Hc. nra. }
  assert (Hb : - (norm a * norm b) <= dot a b <= norm a * norm b) by nra.
  split.
  - apply Rmult_le_reg_r with (norm a * norm b); [lra |].
    unfold Rdiv. rewrite Rmult_assoc, Rinv_l by lra. lra.
  - apply Rmult_le_reg_r with (norm a * norm b); [lra |].
    unfold Rdiv. rewrite Rmult_assoc, Rinv_l by lra. lra.
Qed.

Lemma cos_quadrant b x : cos (@quadrant R R_ops b x) = cos x.
Proof.
  unfold quadrant. destruct b; [| reflexivity].
  rewrite two_R. cbn [fsub fmul f_pi R_ops].
  rewrite cos_minus, cos_2PI, sin_2PI. lra.
Qed.

Lemma quadrant_range b y :
  0 <= @quadrant R R_ops b (farccos y) <= 2 * PI
  /\ (b = true -> PI <= @quadrant R R_ops b (farccos y))
  /\ (b = false -> @quadrant R R_ops b (farccos y) <= PI).
Proof.
  pose proof (acos_bound y). pose proof PI_gt_3.
  unfold quadrant. destruct b; rewrite ?two_R;
    cbn [fsub fmul f_pi farccos R_ops];
    repeat split; try lra; try discriminate.
Qed.

(** The facts about a bound orbit the theorems below share. *)
Lemma kfc_bound_facts (P V : Vec3 R) (m t0 G : R) :
  0 < m * G -> 0 < norm P -> ecc P V (fmul m G) < 1 ->
  exists k,
    keplerian_from_cartesian P V m t0 G = inr k
    /\ k_e k = ecc P V (fmul m G)
    /\ 0 <= k_e k < 1
    /\ norm V * norm V / 2 - m * G / norm P < 0
    /\ 0 < norm (h_vec P V)
    /\ k_a k = - (m * G) / (2 * (norm V * norm V / 2 - m * G / norm P))
    /\ 0 < k_a k
    /\ k_a k * (1 - k_e k * k_e k) = norm (h_vec P V) * norm (h_vec P V) / (m * G)
    /\ k_period k = sqrt (4 * (PI * PI) * (k_a k * k_a k * k_a k) / (m * G))
    /\ 0 < k_period k.
Proof.
  intros Hmu Hr He.
  destruct (kfc_returns P V m t0 G) as (k & Hk & Hke & _).
  { apply fge_false. rewrite one_R. exact He. }
  destruct (kfc_sizes P V m t0 G k Hk) as (Ha & Hp & _).
  rewrite !R_pow_2, two_R in Ha. cbn [fsub fmul fdiv fneg R_ops] in Ha.
  rewrite R_pow_half, R_pow_2, R_pow_3, four_R in Hp.
  cbn [fsub fmul fdiv fneg f_pi R_ops] in Hp.
  pose proof (ecc_energy P V (m * G) Hr ltac:(lra)) as Hen.
  change (fmul m G) with (m * G) in *.
  assert (He0 : 0 <= ecc P V (m * G)) by apply norm_nonneg.
  set (E := norm V * norm V / 2 - m * G / norm P) in *.
  set (h := norm (h_vec P V)) in *.
  assert (Hh0 : 0 <= h) by apply norm_nonneg.
  assert (Hlt : ecc P V (m * G) * ecc P V (m * G) < 1) by nra.
  assert (HEh : E * (h * h) < 0).
  { rewrite Hen in Hlt.
    assert (Hq : 2 * E * (h * h) / (m * G * (m * G)) < 0) by lra.
    unfold Rdiv in Hq.
    assert (Hinv : 0 < / (m * G * (m * G))) by (apply Rinv_0_lt_compat; nra).
    nra. }
  assert (HE : E < 0) by nra.
  assert (Hh : 0 < h).
  { destruct Hh0 as [Hpos | Hz]; [exact Hpos |].
    rewrite <- Hz in HEh. lra. }
  assert (Hapos : 0 < k_a k).
  { rewrite Ha. unfold Rdiv.
    assert (Hinv : / (2 * E) < 0) by (apply Rinv_lt_0_compat; lra).
    nra. }
  exists k. split; [exact Hk |]. split; [exact Hke |].
  split; [rewrite Hke; lra |]. split; [exact HE |]. split; [exact Hh |].
  split; [exact Ha |]. split; [exact Hapos |]. split.
  { rewrite Hke, Hen, Ha. clearbody E h. field. repeat split; nra. }
  split; [exact Hp |].
  rewrite Hp. apply sqrt_lt_R0.
  assert (0 < PI * PI) by (pose proof PI_gt_3; nra).
  assert (0 < k_a k * k_a k * k_a k) by (apply Rmult_lt_0_compat; nra).
  apply Rdiv_lt_0_compat; nra.
Qed.

(** X9: for a state with [mass_tot * G > 0], [|r| > 0] and derived
    eccentricity below 1 the call returns, with [0 <= e < 1], a positive
    semi-major axis, and the speed of the input obeying the vis-viva
    equation [v^2 = mu (2/r - 1/a)]. *)
Theorem kfc_vis_viva (P V : Vec3 R) (m t0 G : R) :
  0 < m * G -> 0 < norm P -> ecc P V (fmul m G) < 1 ->
  exists k,
    keplerian_from_cartesian P V m t0 G = inr k
    /\ 0 <= k_e k < 1
    /\ 0 < k_a k
    /\ norm V * norm V = m * G * (2 / norm P - 1 / k_a k).
Proof.
  intros Hmu Hr He.
  destruct (kfc_bound_facts P V m t0 G Hmu Hr He)
    as (k & Hk & _ & Hrange & HE & _ & Ha & Hapos & _).
  exists k. split; [exact Hk |]. split; [exact Hrange |]. split; [exact Hapos |].
  rewrite Ha. set (E := norm V * norm V / 2 - m * G / norm P) in *.
  assert (Hv : norm V * norm V = 2 * E + 2 * (m * G) / norm P)
    by (unfold E; field; lra).
  rewrite Hv. clearbody E. field. repeat split; nra.
Qed.

(** X10: the returned period is positive and satisfies Kepler's third law
    [P^2 mu = 4 pi^2 a^3]. *)
Theorem kfc_kepler_third_law (P V : Vec3 R) (m t0 G : R) :
  0 < m * G -> 0 < norm P -> ecc P V (fmul m G) < 1 ->
  exists k,
    keplerian_from_cartesian P V m t0 G = inr k
    /\ 0 < k_period k
    /\ k_period k * k_period k * (m * G)
       = 4 * (PI * PI) * (k_a k * k_a k * k_a k).
Proof.
  intros Hmu Hr He.
  destruct (kfc_bound_facts P V m t0 G Hmu Hr He)
    as (k & Hk & _ & _ & _ & _ & _ & Hapos & _ & Hp & Hppos).
  exists k. split; [exact Hk |]. split; [exact Hppos |].
  rewrite Hp, sqrt_sqrt.
  - field. nra.
  - assert (0 < PI * PI) by (pose proof PI_gt_3; nra).
    assert (0 < k_a k * k_a k * k_a k) by (apply Rmult_lt_0_compat; nra).
    apply Rlt_le, Rdiv_lt_0_compat; nra.
Qed.

(** X11: when the eccentricity is not below [1e-6] the returned true
    anomaly puts the input position on the returned ellipse,
    [r (1 + e cos nu) = a (1 - e^2)], and lies in [[pi, 2 pi]] for an
    approaching body ([r.v < 0]) and in [[0, pi]] otherwise. *)
Theorem kfc_orbit_equation (P V : Vec3 R) (m t0 G : R) :
  0 < m * G -> 0 < norm P -> ecc P V (fmul m G) < 1 ->
  / 1000000 <= ecc P V (fmul m G) ->
  exists k,
    keplerian_from_cartesian P V m t0 G = inr k
    /\ norm P * (1 + k_e k * cos (k_true_anom k))
       = k_a k * (1 - k_e k * k_e k)
    /\ (dot P V < 0 -> PI <= k_true_anom k <= 2 * PI)
    /\ (0 <= dot P V -> 0 <= k_true_anom k <= PI).
Proof.
  intros Hmu Hr He Hbig.
  destruct (kfc_bound_facts P V m t0 G Hmu Hr He)
    as (k & Hk & Hke & _ & _ & _ & _ & _ & Hsemi & _).
  destruct (kfc_returns P V m t0 G) as (k' & Hk' & _ & _ & _ & _ & Hta & _).
  { apply fge_false. rewrite one_R. exact He. }
  rewrite Hk in Hk'. injection Hk' as <-.
  rewrite flt_false in Hta by (rewrite tol_ecc_R; exact Hbig).
  change (fmul m G) with (m * G) in *.
  set (e := ecc P V (m * G)) in *.
  assert (He0 : 0 < e) by lra.
  assert (Hcs : -1 <= dot (e_vec P V (m * G)) P / (e * norm P) <= 1).
  { apply cauchy_schwarz. fold (ecc P V (m * G)). fold e. nra. }
  exists k. split; [exact Hk |]. split; [| split].
  - rewrite Hsemi, Hta, cos_quadrant.
    change (@farccos R R_ops) with acos. cbn [fdiv fmul R_ops].
    rewrite cos_acos by exact Hcs.
    rewrite Hke. fold e.
    rewrite (dot_e_vec_r P V (m * G)) by lra.
    field. repeat split; nra.
  - intros Hneg. rewrite Hta, flt_true by (rewrite zero_R; exact Hneg).
    destruct (quadrant_range true (dot (e_vec P V (m * G)) P / (e * norm P)))
      as (Hall & Hhi & _).
    specialize (Hhi eq_refl). cbn [fdiv fmul R_ops]. lra.
  - intros Hpos. rewrite Hta, flt_false by (rewrite zero_R; exact Hpos).
    destruct (quadrant_range false (dot (e_vec P V (m * G)) P / (e * norm P)))
      as (Hall & _ & Hlo).
    specialize (Hlo eq_refl). cbn [fdiv fmul R_ops]. lra.
Qed.

(** X12: the returned mean anomaly is recovered from the returned epoch of
    periastron and period: [mean_anom = 2 pi (t0 - t0_perpass) / period]. *)
Theorem kfc_epoch_round_trip (P V : Vec3 R) (m t0 G : R) :
  0 < m * G -> 0 < norm P -> ecc P V (fmul m G) < 1 ->
  exists k,
    keplerian_from_cartesian P V m t0 G = inr k
    /\ k_mean_anom k = 2 * PI * (t0 - k_t0_perpass k) / k_period k.
Proof.
  intros Hmu Hr He.
  destruct (kfc_bound_facts P V m t0 G Hmu Hr He)
    as (k & Hk & _ & _ & _ & _ & _ & _ & _ & _ & Hppos).
  destruct (kfc_returns P V m t0 G) as (k' & Hk' & _ & _ & _ & _ & _ & _ & Ht0).
  { apply fge_false. rewrite one_R. exact He. }
  rewrite Hk in Hk'. injection Hk' as <-.
  exists k. split; [exact Hk |].
  rewrite Ht0, two_R. cbn [fsub fmul fdiv f_pi R_ops].
  pose proof PI_gt_3. field. lra.
Qed.

Lemma component_over_norm (a : Vec3 R) :
  0 < norm a ->
  -1 <= c0 a / norm a <= 1 /\ -1 <= c2 a / norm a <= 1.
Proof.
  intros Hn. pose proof (norm_sq a) as Hsq.
  assert (H0 : - norm a <= c0 a <= norm a) by nra.
  assert (H2 : - norm a <= c2 a <= norm a) by nra.
  assert (Hinv : 0 < / norm a) by now apply Rinv_0_lt_compat.
  assert (Hone : norm a * / norm a = 1) by (apply Rinv_r; lra).
  unfold Rdiv. repeat split; nra.
Qed.

(** X13: for a state with [mu > 0], [|r| > 0], angular momentum [h > 0]
    and, outside the planar branch, node vector [n > 0] (so that no
    quotient of the call has a zero divisor), every returned orbit has
    [e >= 0], the inclination in [[0, pi]] with [cos incl = h_z / h], the
    argument of periastron and the true anomaly in [[0, 2 pi]], and the
    longitude of the ascending node either 0 (planar branch) or in
    [[pi, 3 pi]] with [cos (long_an - pi) = n_x / n]: it is not reduced
    modulo [2 pi]. *)
Theorem kfc_angle_ranges (P V : Vec3 R) (m t0 G : R) k :
  0 < m * G ->
  0 < norm P ->
  0 < norm (h_vec P V) ->
  flt (fabs (inclination P V)) tol_incl = true \/ 0 < norm (n_vec P V) ->
  keplerian_from_cartesian P V m t0 G = inr k ->
  0 <= k_e k
  /\ 0 <= k_incl k <= PI
  /\ cos (k_incl k) = c2 (h_vec P V) / norm (h_vec P V)
  /\ 0 <= k_per0 k <= 2 * PI
  /\ 0 <= k_true_anom k <= 2 * PI
  /\ (if flt (fabs (inclination P V)) tol_incl
      then k_long_an k = 0
      else PI <= k_long_an k <= 3 * PI
           /\ cos (k_long_an k - PI) = c0 (n_vec P V) / norm (n_vec P V)).
Proof.
  intros _ _ Hh Hn Hk. destruct (kfc_sizes P V m t0 G k Hk) as (_ & _ & Hacc).
  destruct (kfc_returns P V m t0 G Hacc)
    as (k' & Hk' & He & Hincl & Hlong & Hper0 & Hta & _).
  rewrite Hk in Hk'. injection Hk' as <-.
  pose proof PI_gt_3 as Hpi.
  split; [rewrite He; apply norm_nonneg |].
  split; [rewrite Hincl; apply acos_bound |].
  assert (Hzero : @zero R R_ops = 0) by apply zero_R.
  split; [| split; [| split] ].
  - rewrite Hincl. unfold inclination.
    change (@farccos R R_ops) with acos. cbn [fdiv R_ops].
    apply cos_acos. now apply component_over_norm.
  - rewrite Hper0. cbn zeta.
    repeat match goal with
           | |- context [if ?b then _ else _] => destruct b
           end;
      rewrite ?Hzero, ?two_R; cbn [fsub fmul f_pi farccos R_ops];
      try match goal with
          | |- context [acos ?y] => pose proof (acos_bound y)
          end; lra.
  - rewrite Hta.
    repeat match goal with
           | |- context [if ?b then _ else _] => destruct b
           end;
      match goal with
      | |- context [quadrant ?b (farccos ?y)] =>
          destruct (quadrant_range b y) as (Hq & _); exact Hq
      end.
  - rewrite Hlong. destruct (flt _ tol_incl); [exact Hzero |].
    destruct Hn as [Hn | Hn]; [discriminate |].
    match goal with
    | |- context [quadrant ?b (farccos ?y)] =>
        destruct (quadrant_range b y) as (Hq & _)
    end.
    cbn [fadd f_pi R_ops]. split; [lra |].
    match goal with
    | |- cos (?q + PI - PI) = _ => replace (q + PI - PI) with q by lra
    end.
    rewrite cos_quadrant. change (@farccos R R_ops) with acos.
    cbn [fdiv R_ops]. apply cos_acos. now apply component_over_norm.
Qed.

(** X14: an orbit returned with eccentricity exactly 0 has argument of
    periastron 0 and mean anomaly equal to the true anomaly. *)
Theorem kfc_circular (P V : Vec3 R) (m t0 G : R) k :
  keplerian_from_cartesian P V m t0 G = inr k ->
  k_e k = 0 ->
  k_per0 k = 0
  /\ k_mean_anom k = k_true_anom k
  /\ k_t0_perpass k = t0 - k_true_anom k * k_period k / (2 * PI).
Proof.
  intros Hk He0. destruct (kfc_sizes P V m t0 G k Hk) as (_ & _ & Hacc).
  destruct (kfc_returns P V m t0 G Hacc)
    as (k' & Hk' & He & _ & _ & Hper0 & _ & Hma & Ht0).
  rewrite Hk in Hk'. injection Hk' as <-.
  rewrite He0 in He.
  assert (HM : k_mean_anom k = k_true_anom k).
  { rewrite Hma, He0. cbn [fsub fmul R_ops]. lra. }
  split; [| split; [exact HM |]].
  - rewrite Hper0, <- He. cbn zeta.
    rewrite feq_true by (symmetry; apply zero_R).
    rewrite flt_true by (rewrite tol_ecc_R; lra).
    destruct (flt _ tol_incl); apply zero_R.
  - rewrite Ht0, HM, two_R. reflexivity.
Qed.

(** X9, witness: [r = (1,0,0)], [v = (1/2,1,0)], [mass_tot = G = 1]. *)
Lemma kfc_vis_viva_witness :
  exists k,
    keplerian_from_cartesian r_unit (v_planar (1 / 2)) 1 0 1 = inr k
    /\ 0 <= k_e k < 1
    /\ 0 < k_a k
    /\ norm (v_planar (1 / 2)) * norm (v_planar (1 / 2))
       = 1 * 1 * (2 / norm r_unit - 1 / k_a k).
Proof.
  apply (kfc_vis_viva r_unit (v_planar (1 / 2)) 1 0 1).
  - lra.
  - rewrite norm_r_unit. lra.
  - rewrite ecc_planar by lra. lra.
Defined.

(** X10, witness: the same state. *)
Lemma kfc_kepler_third_law_witness :
  exists k,
    keplerian_from_cartesian r_unit (v_planar (1 / 2)) 1 0 1 = inr k
    /\ 0 < k_period k
    /\ k_period k * k_period k * (1 * 1)
       = 4 * (PI * PI) * (k_a k * k_a k * k_a k).
Proof.
  apply (kfc_kepler_third_law r_unit (v_planar (1 / 2)) 1 0 1).
  - lra.
  - rewrite norm_r_unit. lra.
  - rewrite ecc_planar by lra. lra.
Defined.

(** X11, witness: the same state. *)
Lemma kfc_orbit_equation_witness :
  exists k,
    keplerian_from_cartesian r_unit (v_planar (1 / 2)) 1 0 1 = inr k
    /\ norm r_unit * (1 + k_e k * cos (k_true_anom k))
       = k_a k * (1 - k_e k * k_e k)
    /\ (dot r_unit (v_planar (1 / 2)) < 0 -> PI <= k_true_anom k <= 2 * PI)
    /\ (0 <= dot r_unit (v_planar (1 / 2)) -> 0 <= k_true_anom k <= PI).
Proof.
  apply (kfc_orbit_equation r_unit (v_planar (1 / 2)) 1 0 1).
  - lra.
  - rewrite norm_r_unit. lra.
  - rewrite ecc_planar by lra. lra.
  - rewrite ecc_planar by lra. lra.
Defined.

(** X12, witness: the same state, at [t0 = 3]. *)
Lemma kfc_epoch_round_trip_witness :
  exists k,
    keplerian_from_cartesian r_unit (v_planar (1 / 2)) 1 3 1 = inr k
    /\ k_mean_anom k = 2 * PI * (3 - k_t0_perpass k) / k_period k.
Proof.
  apply (kfc_epoch_round_trip r_unit (v_planar (1 / 2)) 1 3 1).
  - lra.
  - rewrite norm_r_unit. lra.
  - rewrite ecc_planar by lra. lra.
Defined.

Lemma kfc_planar_returns d t0 :
  0 <= d < 1 ->
  exists k,
    keplerian_from_cartesian r_unit (v_planar d) 1 t0 1 = inr k /\ k_e k = d.
Proof.
  intros Hd. destruct (kfc_returns r_unit (v_planar d) 1 t0 1) as (k & Hk & He & _).
  - rewrite ecc_planar by lra. apply fge_false. rewrite one_R. lra.
  - exists k. split; [exact Hk |]. rewrite He. apply ecc_planar. lra.
Qed.

(** X13, witness: the orbit in the x-z plane, [v = (1/2,0,1)], whose node
    vector is [(1,0,0)]. *)
Lemma kfc_angle_ranges_witness :
  exists k,
    keplerian_from_cartesian r_unit (v_polar (1 / 2)) 1 0 1 = inr k
    /\ 0 <= k_e k
    /\ 0 <= k_incl k <= PI
    /\ cos (k_incl k)
       = c2 (h_vec r_unit (v_polar (1 / 2)))
         / norm (h_vec r_unit (v_polar (1 / 2)))
    /\ 0 <= k_per0 k <= 2 * PI
    /\ 0 <= k_true_anom k <= 2 * PI
    /\ (if flt (fabs (inclination r_unit (v_polar (1 / 2)))) tol_incl
        then k_long_an k = 0
        else PI <= k_long_an k <= 3 * PI
             /\ cos (k_long_an k - PI)
                = c0 (n_vec r_unit (v_polar (1 / 2)))
                  / norm (n_vec r_unit (v_polar (1 / 2)))).
Proof.
  destruct (kfc_polar_run (1 / 2)) as (k & Hk & _); [lra |].
  exists k. split; [exact Hk |].
  apply (kfc_angle_ranges r_unit (v_polar (1 / 2)) 1 0 1 k).
  - lra.
  - rewrite norm_r_unit. lra.
  - rewrite h_vec_polar, norm_neg_axis_y. lra.
  - right. rewrite n_vec_polar, norm_axis_x. lra.
  - exact Hk.
Defined.

(** X14, witness: the circular orbit [v = (0,1,0)]. *)
Lemma kfc_circular_witness :
  exists k,
    keplerian_from_cartesian r_unit (v_planar 0) 1 0 1 = inr k
    /\ k_per0 k = 0
    /\ k_mean_anom k = k_true_anom k
    /\ k_t0_perpass k = 0 - k_true_anom k * k_period k / (2 * PI).
Proof.
  destruct (kfc_planar_returns 0 0) as (k & Hk & He); [lra |].
  exists k. split; [exact Hk |].
  exact (kfc_circular r_unit (v_planar 0) 1 0 1 k Hk He).
Defined.

End KeplerianOrbitReal.

(** ** [com_phantom_particle] over the real numbers *)

Section CentreOfMass.
Import RealModel RealFacts.
Local Open Scope R_scope.

Lemma fold_plus_acc (l : list R) (a : R) :
  fold_left Rplus l a = a + fold_left Rplus l 0.
Proof.
  revert a. induction l as [| x l IH]; intros a; cbn.
  - lra.
  - rewrite (IH (a + x)), (IH (0 + x)). lra.
Qed.

Lemma fsum_nil : @fsum R R_ops [] = 0.
Proof. unfold fsum. cbn. apply zero_R. Qed.

Lemma fsum_cons x l : @fsum R R_ops (x :: l) = x + fsum l.
Proof.
  unfold fsum. cbn [fold_left]. change (@fadd R R_ops) with Rplus.
  rewrite zero_R, (fold_plus_acc l (0 + x)). lra.
Qed.

Lemma fsum_app l1 l2 : @fsum R R_ops (l1 ++ l2) = fsum l1 + fsum l2.
Proof.
  induction l1 as [| x l1 IH]; cbn [app].
  - rewrite fsum_nil. lra.
  - rewrite !fsum_cons, IH. lra.
Qed.

Lemma fsum_perm l1 l2 : Permutation l1 l2 -> @fsum R R_ops l1 = fsum l2.
Proof.
  induction 1 as [| x l1 l2 _ IH | x y l | l1 l2 l3 _ IH1 _ IH2].
  - reflexivity.
  - rewrite !fsum_cons, IH. reflexivity.
  - rewrite !fsum_cons. lra.
  - congruence.
Qed.

Lemma com_R (l : list (Particle R)) :
  @com_phantom_particle R R_ops l
  = let m := fsum (map p_m l) in
    mkParticle m
      (1 / m * fsum (map (fun p => p_m p * p_x p) l))
      (1 / m * fsum (map (fun p => p_m p * p_y p) l))
      (1 / m * fsum (map (fun p => p_m p * p_z p) l))
      (1 / m * fsum (map (fun p => p_m p * p_vx p) l))
      (1 / m * fsum (map (fun p => p_m p * p_vy p) l))
      (1 / m * fsum (map (fun p => p_m p * p_vz p) l)).
Proof. unfold com_phantom_particle. cbn zeta. rewrite one_R. reflexivity. Qed.

(** X15: the centre of mass of one particle of non-zero mass is that
    particle. *)
Theorem com_single (p : Particle R) :
  p_m p <> 0 -> @com_phantom_particle R R_ops [p] = p.
Proof.
  intros Hm. rewrite com_R. cbn [map]. cbn zeta. rewrite !fsum_cons, fsum_nil.
  destruct p as [m x y z vx vy vz]. cbn [p_m p_x p_y p_z p_vx p_vy p_vz] in *.
  f_equal; field; lra.
Qed.

(** X16: [com_phantom_particle] does not depend on the order of the
    particles. *)
Theorem com_permutation (l1 l2 : list (Particle R)) :
  Permutation l1 l2 ->
  @com_phantom_particle R R_ops l1 = @com_phantom_particle R R_ops l2.
Proof.
  intros Hp. rewrite !com_R. cbn zeta.
  assert (Hf : forall f : Particle R -> R, fsum (map f l1) = fsum (map f l2)).
  { intros f. apply fsum_perm. now apply Permutation_map. }
  now rewrite !Hf.
Qed.

(** X17: the centre of mass of the centres of mass of two groups is the
    centre of mass of all their particles (the total masses being
    non-zero). *)
Theorem com_hierarchical (A B : list (Particle R)) :
  fsum (map p_m A) <> 0 -> fsum (map p_m B) <> 0 ->
  fsum (map p_m (A ++ B)) <> 0 ->
  @com_phantom_particle R R_ops
     [com_phantom_particle A; com_phantom_particle B]
  = @com_phantom_particle R R_ops (A ++ B).
Proof.
  intros HA HB HAB. rewrite (com_R [_; _]), (com_R (A ++ B)).
  cbn [map]. cbn zeta. rewrite !fsum_cons, !fsum_nil.
  rewrite !map_app, !fsum_app in *.
  rewrite !com_R. cbn zeta. cbn [p_m p_x p_y p_z p_vx p_vy p_vz].
  f_equal; field; repeat split; lra.
Qed.

Lemma fsum_scale (c : R) (l : list R) :
  fsum (map (fun x => x * c) l) = fsum l * c.
Proof.
  induction l as [| x l IH]; cbn [map].
  - rewrite fsum_nil. lra.
  - rewrite !fsum_cons, IH. lra.
Qed.

Lemma fsum_translate (f : Particle R -> R) (c : R) (l : list (Particle R)) :
  fsum (map (fun p => p_m p * (f p + c)) l)
  = fsum (map (fun p => p_m p * f p) l) + fsum (map p_m l) * c.
Proof.
  induction l as [| x l IH]; cbn [map].
  - rewrite !fsum_nil. lra.
  - rewrite !fsum_cons, IH. lra.
Qed.

(** X18: moving every particle by [d] and boosting it by [w] moves and
    boosts the centre of mass by the same, and leaves its mass alone. *)
Theorem com_translate (d w : Vec3 R) (l : list (Particle R)) :
  fsum (map p_m l) <> 0 ->
  @com_phantom_particle R R_ops (map (translate d w) l)
  = translate d w (com_phantom_particle l).
Proof.
  intros Hm. rewrite !com_R. cbn zeta. unfold translate at 8.
  cbn [p_m p_x p_y p_z p_vx p_vy p_vz].
  rewrite !map_map. cbn [translate p_m p_x p_y p_z p_vx p_vy p_vz].
  change (map (fun x => p_m (translate d w x)) l) with (map p_m l).
  unfold translate. cbn [p_m p_x p_y p_z p_vx p_vy p_vz].
  rewrite (fsum_translate p_x), (fsum_translate p_y), (fsum_translate p_z),
    (fsum_translate p_vx), (fsum_translate p_vy), (fsum_translate p_vz).
  change (fun x : Particle R => p_m x) with (@p_m R).
  f_equal; field; lra.
Qed.

(** X15, witness. *)
Lemma com_single_witness :
  @com_phantom_particle R R_ops [mkParticle 2 1 0 0 0 1 0]
  = mkParticle 2 1 0 0 0 1 0.
Proof.
  apply (com_single (mkParticle 2 1 0 0 0 1 0)). cbn. lra.
Defined.

(** X16, witness: two particles swapped. *)
Lemma com_permutation_witness :
  @com_phantom_particle R R_ops
     [mkParticle 2 1 0 0 0 1 0; mkParticle 1 0 3 0 0 0 0]
  = @com_phantom_particle R R_ops
      [mkParticle 1 0 3 0 0 0 0; mkParticle 2 1 0 0 0 1 0].
Proof.
  apply com_permutation. apply perm_swap.
Defined.

(** X17, witness: an inner pair and a third particle. *)
Lemma com_hierarchical_witness :
  @com_phantom_particle R R_ops
     [com_phantom_particle
        [mkParticle 2 1 0 0 0 1 0; mkParticle 1 0 3 0 0 0 0];
      com_phantom_particle [mkParticle 3 0 0 5 0 0 1]]
  = @com_phantom_particle R R_ops
      ([mkParticle 2 1 0 0 0 1 0; mkParticle 1 0 3 0 0 0 0]
       ++ [mkParticle 3 0 0 5 0 0 1]).
Proof.
  apply com_hierarchical;
    cbn [map app p_m]; rewrite ?fsum_cons, fsum_nil; lra.
Defined.

(** X18, witness. *)
Lemma com_translate_witness :
  @com_phantom_particle R R_ops
     (map (translate (mk3 1 2 3) (mk3 0 0 1))
          [mkParticle 2 1 0 0 0 1 0; mkParticle 1 0 3 0 0 0 0])
  = translate (mk3 1 2 3) (mk3 0 0 1)
      (com_phantom_particle
         [mkParticle 2 1 0 0 0 1 0; mkParticle 1 0 3 0 0 0 0]).
Proof.
  apply com_translate. cbn [map p_m]. rewrite !fsum_cons, fsum_nil. lra.
Defined.

End CentreOfMass.

(** ** What [dynamics_from_bundle_rebound] computes, for every backend *)

Section ReboundDriverFacts.
Context {F : Type} `{FloatOps F} `{Rebound F} `{Scipy F} `{BundleAPI F}.
Variable env : Env F.
Local Open Scope fl_scope.

(** With the libraries available, the call is the loop over [times] run
    from [initial_simulation] and zero-filled arrays. *)
Lemma rebound_run_unfold (b : Bundle) (times : list F) (compute : option string)
    (rre : bool) (kwargs : gmap string (Value F)) :
  let b' := run_delayed_constraints b in
  let t0 := get_value b' "t0" "d" None "system" in
  let ltte := as_bool (compute_get_value b' compute "ltte" kwargs) in
  let times' := map (fun t => t - t0) times in
  let rotperiods :=
    if rre
    then map (fun component =>
                get_value b' "period" "d" (Some component) "component")
             (get_stars b')
    else [] in
  let z := zeros (length (sim_particles (initial_simulation env b compute kwargs).1))
                 (length times') in
  _can_rebound env = true ->
  (as_bool (compute_get_value b' compute "gr" kwargs) = true ->
   _can_reboundx env = true) ->
  dynamics_from_bundle_rebound env b times compute rre kwargs
  = finish rre times'
      (for_each (enumerate times')
         (time_step env rre ltte (initial_simulation env b compute kwargs).2
                    rotperiods)
         (mkLoop (mkSession (initial_simulation env b compute kwargs).1 [])
            (mkArrays z z z z z z)
            (if rre then mkEulerArrays z z z z z z z z z z z z
             else mkEulerArrays [] [] [] [] [] [] [] [] [] [] [] []))).
Proof.
  intros b' t0 ltte times' rotperiods z Hreb Hgr.
  unfold dynamics_from_bundle_rebound. fold b'. rewrite Hreb. cbn [negb].
  assert (Hok : as_bool (compute_get_value b' compute "gr" kwargs)
                && negb (_can_reboundx env) = false).
  { destruct (as_bool (compute_get_value b' compute "gr" kwargs)) eqn:E;
      [rewrite (Hgr eq_refl) |]; reflexivity. }
  rewrite Hok. unfold z, initial_simulation. fold b'.
  destruct (fold_left _ _ _) as [sm sibling_Ns]. reflexivity.
Qed.

(** A returned value comes from the loop: the libraries were there. *)
Lemma rebound_result_inr (b : Bundle) (times : list F) (compute : option string)
    (rre : bool) (kwargs : gmap string (Value F)) out :
  result (dynamics_from_bundle_rebound env b times compute rre kwargs) = inr out ->
  _can_rebound env = true
  /\ (as_bool (compute_get_value (run_delayed_constraints b) compute "gr" kwargs)
      = true -> _can_reboundx env = true).
Proof.
  unfold dynamics_from_bundle_rebound.
  destruct (_can_rebound env); cbn [negb]; [| discriminate].
  destruct (as_bool _) eqn:Egr; cbn [andb].
  - destruct (_can_reboundx env); cbn [negb]; [auto | discriminate].
  - intros _. split; [reflexivity | discriminate].
Qed.

Lemma finish_returns_euler (times : list F) r out :
  result (finish true times r) = inr out ->
  exists ea, out_euler out = Some ea.
Proof.
  destruct r as [[ex |] st]; cbn; [discriminate |].
  intros Hout. injection Hout as <-. cbn. eauto.
Qed.

Lemma for_each_invariant {A St : Type} (I : St -> Prop)
    (body : A -> St -> option Exn * St) (l : list A) :
  (forall a st, I st -> I (body a st).2) ->
  forall st, I st -> I (for_each l body st).2.
Proof.
  intros Hbody. induction l as [| a l IH]; intros st Hst; cbn [for_each].
  - exact Hst.
  - specialize (Hbody a st Hst).
    destruct (body a st) as [[ex |] st']; cbn in *; [exact Hbody | now apply IH].
Qed.

(** With LTTE off and the libraries available the call returns, with the
    Roche/Euler arrays when they are asked for. *)
Lemma rebound_no_ltte_returns (b : Bundle) (times : list F)
    (compute : option string) (rre : bool) (kwargs : gmap string (Value F)) :
  let b' := run_delayed_constraints b in
  _can_rebound env = true ->
  (as_bool (compute_get_value b' compute "gr" kwargs) = true ->
   _can_reboundx env = true) ->
  as_bool (compute_get_value b' compute "ltte" kwargs) = false ->
  exists out,
    result (dynamics_from_bundle_rebound env b times compute rre kwargs) = inr out
    /\ (rre = true -> exists ea, out_euler out = Some ea).
Proof.
  intros b' Hreb Hgr Hltte.
  rewrite (rebound_run_unfold b times compute rre kwargs Hreb Hgr).
  fold b'. rewrite Hltte.
  match goal with
  | |- context [for_each ?its (time_step env ?r false ?sb ?rot) ?st] =>
      destruct (times_no_ltte env r sb rot its st) as (st' & -> & _)
  end.
  cbn. eexists. split; [reflexivity |]. intros ->. cbn. eauto.
Qed.

(** *** The shape of the arrays *)

Lemma shaped_zeros N n : shaped N n (zeros N n).
Proof.
  unfold shaped, zeros. split; [apply length_replicate |].
  apply Forall_forall. intros row Hin.
  apply elem_of_replicate in Hin as [-> _]. apply length_replicate.
Qed.

Lemma shaped_set2 N n (tbl : Table F) j i v :
  shaped N n tbl -> shaped N n (set2 tbl j i v).
Proof.
  intros [Hlen Hrows]. unfold shaped, set2. split.
  - now rewrite length_alter.
  - apply Forall_alter; [exact Hrows |].
    intros row _ Hrow. now rewrite length_insert.
Qed.

Lemma arrays_shaped_store N n (a : Arrays F) j i p :
  arrays_shaped N n a -> arrays_shaped N n (store_particle a j i p).
Proof.
  unfold arrays_shaped, store_particle. cbn.
  intros (Hx & Hy & Hz & Hvx & Hvy & Hvz).
  do 5 (split; [now apply shaped_set2 |]). now apply shaped_set2.
Qed.

Lemma euler_shaped_store N n (ea : EulerArrays F) j i eu :
  euler_shaped N n ea -> euler_shaped N n (store_euler ea j i eu).
Proof.
  unfold euler_shaped, store_euler. cbn.
  intros (H1' & H2' & H3' & H4' & H5' & H6' & H7' & H8' & H9' & H10' & H11' & H12').
  do 11 (split; [now apply shaped_set2 |]). now apply shaped_set2.
Qed.

Lemma body_step_shape N n rre ltte sibling_Ns rotperiods i time j
    (st : LoopState) :
  arrays_shaped N n (l_pos st) /\ euler_shaped N n (l_euler st) ->
  arrays_shaped N n
    (l_pos (body_step env rre ltte sibling_Ns rotperiods i time j st).2)
  /\ euler_shaped N n
       (l_euler (body_step env rre ltte sibling_Ns rotperiods i time j st).2).
Proof.
  intros [Hpos Heu]. unfold body_step.
  set (ea := if rre then store_euler _ _ _ _ else l_euler st).
  assert (Hea : euler_shaped N n ea).
  { subst ea. destruct rre; [now apply euler_shaped_store | exact Heu]. }
  destruct (if ltte then _ else _) as [[ex | p] s]; cbn;
    (split; [| exact Hea]); [exact Hpos | now apply arrays_shaped_store].
Qed.

Lemma time_step_shape N n rre ltte sibling_Ns rotperiods it (st : LoopState) :
  arrays_shaped N n (l_pos st) /\ euler_shaped N n (l_euler st) ->
  arrays_shaped N n
    (l_pos (time_step env rre ltte sibling_Ns rotperiods it st).2)
  /\ euler_shaped N n
       (l_euler (time_step env rre ltte sibling_Ns rotperiods it st).2).
Proof.
  intros Hst. destruct it as [i time]. unfold time_step.
  apply (for_each_invariant
           (fun st => arrays_shaped N n (l_pos st)
                      /\ euler_shaped N n (l_euler st))).
  - intros j st' Hst'. now apply body_step_shape.
  - exact Hst.
Qed.

Lemma time_step_pos_shape N n rre ltte sibling_Ns rotperiods it
    (st : LoopState) :
  arrays_shaped N n (l_pos st) ->
  arrays_shaped N n
    (l_pos (time_step env rre ltte sibling_Ns rotperiods it st).2).
Proof.
  intros Hst. destruct it as [i time]. unfold time_step.
  apply (for_each_invariant (fun st => arrays_shaped N n (l_pos st))).
  - intros j st' Hst'. unfold body_step.
    destruct (if ltte then _ else _) as [[ex | p] s]; cbn;
      [exact Hst' | now apply arrays_shaped_store].
  - exact Hst.
Qed.

(** X1: every value [dynamics_from_bundle_rebound] returns has the times
    [times - t0], one position and one velocity array per particle of the
    simulation, each with one entry per time, and the twelve Roche/Euler
    arrays of the same shape exactly when [return_roche_euler] is set. *)
Theorem rebound_output_shape (b : Bundle) (times : list F)
    (compute : option string) (rre : bool) (kwargs : gmap string (Value F)) out :
  result (dynamics_from_bundle_rebound env b times compute rre kwargs) = inr out ->
  let N := length (sim_particles (initial_simulation env b compute kwargs).1) in
  let t0 := get_value (run_delayed_constraints b) "t0" "d" None "system" in
  out_times out = map (fun t => t - t0) times
  /\ arrays_shaped N (length times) (out_pos out)
  /\ match out_euler out with
     | Some ea => rre = true /\ euler_shaped N (length times) ea
     | None => rre = false
     end.
Proof.
  intros Hres N t0. destruct (rebound_result_inr _ _ _ _ _ _ Hres) as [Hreb Hgr].
  rewrite (rebound_run_unfold b times compute rre kwargs Hreb Hgr) in Hres.
  fold N in Hres. fold t0 in Hres. rewrite length_map in Hres.
  set (body := time_step env rre _ _ _) in Hres.
  set (z := zeros N (length times)) in Hres.
  set (st0 := mkLoop _ _ _) in Hres.
  assert (Hpos : arrays_shaped N (length times)
                   (l_pos (for_each (enumerate (map (fun t => t - t0) times))
                                    body st0).2)).
  { apply (for_each_invariant (fun st => arrays_shaped N (length times) (l_pos st))).
    - intros it st Hst. now apply time_step_pos_shape.
    - unfold st0, arrays_shaped. cbn. repeat split; apply shaped_zeros. }
  assert (Heu : rre = true ->
                euler_shaped N (length times)
                  (l_euler (for_each (enumerate (map (fun t => t - t0) times))
                                     body st0).2)).
  { intros ->.
    apply (for_each_invariant
             (fun st => arrays_shaped N (length times) (l_pos st)
                        /\ euler_shaped N (length times) (l_euler st))).
    - intros it st Hst. now apply time_step_shape.
    - unfold st0, arrays_shaped, euler_shaped. cbn.
      repeat split; apply shaped_zeros. }
  destruct (for_each _ body st0) as [[ex |] st']; cbn in Hres; [discriminate |].
  injection Hres as <-. cbn [out_times out_pos out_euler].
  split; [reflexivity |]. split; [exact Hpos |].
  destruct rre; [split; [reflexivity | now apply Heu] | reflexivity].
Qed.

(** X2: in every returned set of Roche/Euler arrays, [elongans] is the same
    table as [long_ans] and [eincls] the same as [incls]: both pairs are
    filled from [orbit.Omega - pi] and [orbit.inc]. *)
Theorem rebound_euler_angles_repeat_elements (b : Bundle) (times : list F)
    (compute : option string) (rre : bool) (kwargs : gmap string (Value F))
    out ea :
  result (dynamics_from_bundle_rebound env b times compute rre kwargs) = inr out ->
  out_euler out = Some ea ->
  elongans ea = long_ans ea /\ eincls ea = incls ea.
Proof.
  intros Hres Hea. destruct (rebound_result_inr _ _ _ _ _ _ Hres) as [Hreb Hgr].
  rewrite (rebound_run_unfold b times compute rre kwargs Hreb Hgr) in Hres.
  set (I := fun st : LoopState =>
              elongans (l_euler st) = long_ans (l_euler st)
              /\ eincls (l_euler st) = incls (l_euler st)).
  match type of Hres with
  | result (finish _ _ (for_each ?its ?body ?st0)) = _ =>
      assert (HI : I (for_each its body st0).2);
      [| destruct (for_each its body st0) as [[ex |] st']; cbn in Hres;
         [discriminate |] ]
  end.
  { apply for_each_invariant.
    - intros [i time] st Hst. unfold time_step.
      apply for_each_invariant.
      + intros j st' [He1 He2]. unfold body_step.
        set (ea' := if rre then store_euler _ _ _ _ else l_euler st').
        assert (Hea' : elongans ea' = long_ans ea' /\ eincls ea' = incls ea').
        { subst ea'. destruct rre; [| split; assumption].
          unfold store_euler, calculate_euler. cbn. now rewrite He1, He2. }
        destruct (if as_bool _ then _ else _) as [[ex | p] s]; cbn; exact Hea'.
      + exact Hst.
    - unfold I. cbn. destruct rre; split; reflexivity. }
  injection Hres as <-. cbn [out_euler] in Hea.
  destruct rre; [| discriminate]. injection Hea as <-. exact HI.
Qed.

(** *** The values stored with LTTE off *)

Lemma fold_set2_lookup (g : nat -> F) i m :
  forall a (tbl : Table F) j,
    fold_left (fun tbl j => set2 tbl j i (g j)) (seq a m) tbl !! j
    = if decide (a <= j < a + m)%nat
      then (fun row => <[i := g j]> row) <$> tbl !! j
      else tbl !! j.
Proof.
  induction m as [| m IH]; intros a tbl j; cbn [seq fold_left].
  - destruct (decide _) as [Hd | Hd]; [exfalso; lia | reflexivity].
  - rewrite IH.
    change (set2 tbl a i (g a)) with (alter (fun row => <[i := g a]> row) a tbl).
    destruct (decide (a = j)) as [-> | Hne].
    + rewrite list_lookup_alter_eq.
      destruct (decide (S j <= j < S j + m)%nat) as [Hd | _]; [exfalso; lia |].
      destruct (decide (j <= j < j + S m)%nat) as [_ | Hd];
        [reflexivity | exfalso; lia].
    + rewrite list_lookup_alter_ne by exact Hne.
      destruct (decide (S a <= j < S a + m)%nat) as [Hd | Hd];
        destruct (decide (a <= j < a + S m)%nat) as [Hd' | Hd'];
        first [reflexivity | exfalso; lia].
Qed.

Lemma column_step N (g : Session -> nat -> F) done pad s :
  fold_left (fun tbl j => set2 tbl j (length done) (g s j))
            (seq 0 N) (column_table N g done (S pad))
  = column_table N g (done ++ [s]) pad.
Proof.
  apply list_eq. intros j.
  rewrite (fold_set2_lookup (g s)).
  unfold column_table. rewrite !list_lookup_fmap.
  destruct (decide (j < N)%nat) as [Hlt | Hge].
  - rewrite lookup_seq_lt by exact Hlt.
    destruct (decide (0 <= j < 0 + N)%nat) as [_ | Hd]; [| exfalso; lia].
    cbn. f_equal. rewrite map_app. cbn [map]. rewrite <- app_assoc. cbn [app].
    rewrite insert_app_r_alt by (rewrite length_map; lia).
    rewrite length_map, Nat.sub_diag. reflexivity.
  - rewrite lookup_seq_ge by lia.
    destruct (decide (0 <= j < 0 + N)%nat) as [Hd | _];
      [exfalso; lia | reflexivity].
Qed.

Lemma column_table_nil N (g : Session -> nat -> F) n :
  column_table N g [] n = zeros N n.
Proof.
  unfold column_table, zeros. cbn [map app].
  generalize 0%nat. induction N as [| N IH]; intros a; cbn; [reflexivity |].
  now rewrite IH.
Qed.

Lemma cell_column_table N (g : Session -> nat -> F) ss j i s :
  (j < N)%nat -> ss !! i = Some s ->
  cell (column_table N g ss 0) j i = Some (g s j).
Proof.
  intros Hj Hi. unfold cell, column_table.
  rewrite list_lookup_fmap, lookup_seq_lt by exact Hj. cbn.
  rewrite app_nil_r, list_lookup_fmap, Hi. reflexivity.
Qed.

Lemma fold_store_particle (P : nat -> Particle F) i js :
  forall a,
    fold_left (fun a j => store_particle a j i (P j)) js a
    = mkArrays
        (fold_left (fun tbl j => set2 tbl j i (p_x (P j))) js (xs a))
        (fold_left (fun tbl j => set2 tbl j i (p_y (P j))) js (ys a))
        (fold_left (fun tbl j => set2 tbl j i (p_z (P j))) js (zs a))
        (fold_left (fun tbl j => set2 tbl j i (p_vx (P j))) js (vxs a))
        (fold_left (fun tbl j => set2 tbl j i (p_vy (P j))) js (vys a))
        (fold_left (fun tbl j => set2 tbl j i (p_vz (P j))) js (vzs a)).
Proof.
  induction js as [| j js IH]; intros a; cbn [fold_left].
  - now destruct a.
  - rewrite IH. reflexivity.
Qed.

Lemma fold_store_euler (E : nat -> Euler F) i js :
  forall ea,
    fold_left (fun ea j => store_euler ea j i (E j)) js ea
    = mkEulerArrays
        (fold_left (fun tbl j => set2 tbl j i (eu_d (E j))) js (ds ea))
        (fold_left (fun tbl j => set2 tbl j i (eu_F (E j))) js (Fs ea))
        (fold_left (fun tbl j => set2 tbl j i (eu_etheta (E j))) js (ethetas ea))
        (fold_left (fun tbl j => set2 tbl j i (eu_elongan (E j))) js (elongans ea))
        (fold_left (fun tbl j => set2 tbl j i (eu_eincl (E j))) js (eincls ea))
        (fold_left (fun tbl j => set2 tbl j i (eu_period (E j))) js (periods ea))
        (fold_left (fun tbl j => set2 tbl j i (eu_sma (E j))) js (smas ea))
        (fold_left (fun tbl j => set2 tbl j i (eu_ecc (E j))) js (eccs ea))
        (fold_left (fun tbl j => set2 tbl j i (eu_per0 (E j))) js (per0s ea))
        (fold_left (fun tbl j => set2 tbl j i (eu_long_an (E j))) js (long_ans ea))
        (fold_left (fun tbl j => set2 tbl j i (eu_incl (E j))) js (incls ea))
        (fold_left (fun tbl j => set2 tbl j i (eu_t0_perpass (E j))) js
                   (t0_perpasses ea)).
Proof.
  induction js as [| j js IH]; intros ea; cbn [fold_left].
  - now destruct ea.
  - rewrite IH. reflexivity.
Qed.

Lemma recorded_step N done pad s :
  fold_left (fun a j => store_particle a j (length done) (particle_at s j))
            (seq 0 N) (recorded N done (S pad))
  = recorded N (done ++ [s]) pad.
Proof.
  rewrite (fold_store_particle (particle_at s)). unfold recorded.
  cbn [xs ys zs vxs vys vzs].
  rewrite (column_step N (fun s j => p_x (particle_at s j))),
    (column_step N (fun s j => p_y (particle_at s j))),
    (column_step N (fun s j => p_z (particle_at s j))),
    (column_step N (fun s j => p_vx (particle_at s j))),
    (column_step N (fun s j => p_vy (particle_at s j))),
    (column_step N (fun s j => p_vz (particle_at s j))).
  reflexivity.
Qed.

Lemma recorded_euler_step N sibling_Ns rotperiods done pad s :
  fold_left (fun ea j => store_euler ea j (length done)
                           (calculate_euler sibling_Ns rotperiods s j))
            (seq 0 N) (recorded_euler N sibling_Ns rotperiods done (S pad))
  = recorded_euler N sibling_Ns rotperiods (done ++ [s]) pad.
Proof.
  rewrite (fold_store_euler (calculate_euler sibling_Ns rotperiods s)).
  unfold recorded_euler.
  cbn [ds Fs ethetas elongans eincls periods smas eccs per0s long_ans incls
       t0_perpasses].
  rewrite
    (column_step N (fun s j => eu_d (calculate_euler sibling_Ns rotperiods s j))),
    (column_step N (fun s j => eu_F (calculate_euler sibling_Ns rotperiods s j))),
    (column_step N
       (fun s j => eu_etheta (calculate_euler sibling_Ns rotperiods s j))),
    (column_step N
       (fun s j => eu_elongan (calculate_euler sibling_Ns rotperiods s j))),
    (column_step N
       (fun s j => eu_eincl (calculate_euler sibling_Ns rotperiods s j))),
    (column_step N
       (fun s j => eu_period (calculate_euler sibling_Ns rotperiods s j))),
    (column_step N
       (fun s j => eu_sma (calculate_euler sibling_Ns rotperiods s j))),
    (column_step N
       (fun s j => eu_ecc (calculate_euler sibling_Ns rotperiods s j))),
    (column_step N
       (fun s j => eu_per0 (calculate_euler sibling_Ns rotperiods s j))),
    (column_step N
       (fun s j => eu_long_an (calculate_euler sibling_Ns rotperiods s j))),
    (column_step N
       (fun s j => eu_incl (calculate_euler sibling_Ns rotperiods s j))),
    (column_step N
       (fun s j => eu_t0_perpass (calculate_euler sibling_Ns rotperiods s j))).
  reflexivity.
Qed.

Lemma bodies_no_ltte_stores rre sibling_Ns rotperiods i time js :
  forall st, exists st',
    for_each js (body_step env rre false sibling_Ns rotperiods i time) st
    = (None, st')
    /\ l_sess st' = l_sess st
    /\ l_pos st'
       = fold_left (fun a j => store_particle a j i (particle_at (l_sess st) j))
                   js (l_pos st)
    /\ l_euler st'
       = if rre
         then fold_left
                (fun ea j => store_euler ea j i
                               (calculate_euler sibling_Ns rotperiods (l_sess st) j))
                js (l_euler st)
         else l_euler st.
Proof.
  induction js as [| j js IH]; intros st; cbn [for_each fold_left].
  - eexists. repeat split. now destruct rre.
  - unfold body_step at 1. cbn.
    match goal with |- context [for_each js _ ?st1] =>
      destruct (IH st1) as (st' & Hrun & Hs & Hp & He) end.
    exists st'. rewrite Hrun. cbn in Hs, Hp, He. rewrite Hs, Hp, He.
    repeat split. now destruct rre.
Qed.

Lemma times_no_ltte_stores N rre sibling_Ns rotperiods
    (Hcount : forall s t e,
        length (sim_particles (sim_integrate s t e)) = length (sim_particles s))
    ts :
  forall done st,
    length (sim_particles (sim (l_sess st))) = N ->
    l_pos st = recorded N done (length ts) ->
    (rre = true ->
     l_euler st = recorded_euler N sibling_Ns rotperiods done (length ts)) ->
    exists st',
      for_each (enumerate_from (length done) ts)
               (time_step env rre false sibling_Ns rotperiods) st
      = (None, st')
      /\ l_pos st' = recorded N (done ++ scan_integrate (l_sess st) ts) 0
      /\ (rre = true ->
          l_euler st'
          = recorded_euler N sibling_Ns rotperiods
              (done ++ scan_integrate (l_sess st) ts) 0).
Proof.
  induction ts as [| t ts IH]; intros done st HN Hpos Heu;
    cbn [enumerate_from for_each scan_integrate].
  - exists st. split; [reflexivity |]. now rewrite app_nil_r.
  - unfold time_step at 1.
    set (s := integrate (l_sess st) t true).
    assert (HN' : length (sim_particles (sim s)) = N).
    { unfold s, integrate. cbn. now rewrite Hcount. }
    rewrite HN'.
    destruct (bodies_no_ltte_stores rre sibling_Ns rotperiods (length done) t
                (seq 0 N) (mkLoop s (l_pos st) (l_euler st)))
      as (st1 & Hrun & Hs1 & Hp1 & He1).
    rewrite Hrun. cbn [l_sess l_pos l_euler] in Hs1, Hp1, He1.
    rewrite Hpos in Hp1. cbn [length] in Hp1. rewrite recorded_step in Hp1.
    destruct (IH (done ++ [s]) st1) as (st' & Hrun' & Hp' & He').
    + now rewrite Hs1.
    + exact Hp1.
    + intros ->. rewrite He1, (Heu eq_refl). cbn [length].
      apply recorded_euler_step.
    + exists st'. rewrite length_app, Nat.add_comm in Hrun'. cbn in Hrun'.
      split; [exact Hrun' |]. rewrite Hs1, <- app_assoc in Hp', He'.
      split; [exact Hp' | exact He'].
Qed.

(** The run with LTTE off, as tables of the states after each
    [sim.integrate]. *)
Lemma rebound_no_ltte_tables (b : Bundle) (times : list F)
    (compute : option string) (rre : bool) (kwargs : gmap string (Value F)) out :
  (forall s t e,
      length (sim_particles (sim_integrate s t e)) = length (sim_particles s)) ->
  as_bool (compute_get_value (run_delayed_constraints b) compute "ltte" kwargs)
  = false ->
  result (dynamics_from_bundle_rebound env b times compute rre kwargs) = inr out ->
  let b' := run_delayed_constraints b in
  let t0 := get_value b' "t0" "d" None "system" in
  let sm := (initial_simulation env b compute kwargs).1 in
  let sibling_Ns := (initial_simulation env b compute kwargs).2 in
  let rotperiods :=
    map (fun component => get_value b' "period" "d" (Some component) "component")
        (get_stars b') in
  let ss := scan_integrate (mkSession sm []) (map (fun t => t - t0) times) in
  out_pos out = recorded (length (sim_particles sm)) ss 0
  /\ forall ea,
       out_euler out = Some ea ->
       ea = recorded_euler (length (sim_particles sm)) sibling_Ns rotperiods ss 0.
Proof.
  intros Hcount Hltte Hres b' t0 sm sibling_Ns rotperiods ss.
  destruct (rebound_result_inr _ _ _ _ _ _ Hres) as [Hreb Hgr].
  rewrite (rebound_run_unfold b times compute rre kwargs Hreb Hgr) in Hres.
  rewrite Hltte in Hres. fold b' in Hres. fold t0 in Hres. fold sm in Hres.
  fold sibling_Ns in Hres.
  set (N := length (sim_particles sm)) in *.
  set (times' := map (fun t => t - t0) times) in *.
  match type of Hres with
  | result (finish _ _ (for_each _ (time_step _ _ _ _ ?rot) ?st0)) = _ =>
      destruct (times_no_ltte_stores N rre sibling_Ns rot Hcount times' [] st0)
        as (st' & Hrun & Hp & He)
  end.
  - reflexivity.
  - cbn [l_pos]. unfold recorded. now rewrite !column_table_nil.
  - intros ->. cbn [l_euler]. unfold recorded_euler.
    now rewrite !column_table_nil.
  - unfold enumerate in Hres. cbn [length] in Hrun. rewrite Hrun in Hres.
    cbn in Hres. injection Hres as <-. cbn [out_pos out_euler].
    split; [exact Hp |].
    intros ea Hea. destruct rre; [| discriminate].
    injection Hea as <-. exact (He eq_refl).
Qed.

(** X3: with LTTE off, entry [i] of the arrays of particle [j] is the
    position and velocity of that particle in the simulation right after
    the [i]-th [sim.integrate(times[i] - t0)]. *)
Theorem rebound_no_ltte_positions (b : Bundle) (times : list F)
    (compute : option string) (rre : bool) (kwargs : gmap string (Value F))
    out i j s :
  (forall s t e,
      length (sim_particles (sim_integrate s t e)) = length (sim_particles s)) ->
  as_bool (compute_get_value (run_delayed_constraints b) compute "ltte" kwargs)
  = false ->
  result (dynamics_from_bundle_rebound env b times compute rre kwargs) = inr out ->
  let t0 := get_value (run_delayed_constraints b) "t0" "d" None "system" in
  let sm := (initial_simulation env b compute kwargs).1 in
  (j < length (sim_particles sm))%nat ->
  scan_integrate (mkSession sm []) (map (fun t => t - t0) times) !! i = Some s ->
  cell (xs (out_pos out)) j i = Some (p_x (particle_at s j))
  /\ cell (ys (out_pos out)) j i = Some (p_y (particle_at s j))
  /\ cell (zs (out_pos out)) j i = Some (p_z (particle_at s j))
  /\ cell (vxs (out_pos out)) j i = Some (p_vx (particle_at s j))
  /\ cell (vys (out_pos out)) j i = Some (p_vy (particle_at s j))
  /\ cell (vzs (out_pos out)) j i = Some (p_vz (particle_at s j)).
Proof.
  intros Hcount Hltte Hres t0 sm Hj Hi.
  destruct (rebound_no_ltte_tables b times compute rre kwargs out
              Hcount Hltte Hres) as [Hp _].
  fold t0 in Hp. fold sm in Hp. rewrite Hp. unfold recorded.
  cbn [xs ys zs vxs vys vzs].
  repeat split;
    match goal with
    | |- cell (column_table _ ?g _ _) _ _ = _ =>
        exact (cell_column_table _ g _ j i s Hj Hi)
    end.
Qed.

(** X4: with LTTE off, the Roche/Euler elements stored for star [j] at
    time index [i] are [calculate_euler] of the simulation right after the
    [i]-th [sim.integrate(times[i] - t0)]: the state at the requested
    time. *)
Theorem rebound_no_ltte_euler_at_requested_time (b : Bundle) (times : list F)
    (compute : option string) (rre : bool) (kwargs : gmap string (Value F))
    out ea i j s :
  (forall s t e,
      length (sim_particles (sim_integrate s t e)) = length (sim_particles s)) ->
  as_bool (compute_get_value (run_delayed_constraints b) compute "ltte" kwargs)
  = false ->
  result (dynamics_from_bundle_rebound env b times compute rre kwargs) = inr out ->
  out_euler out = Some ea ->
  let b' := run_delayed_constraints b in
  let t0 := get_value b' "t0" "d" None "system" in
  let sm := (initial_simulation env b compute kwargs).1 in
  let sibling_Ns := (initial_simulation env b compute kwargs).2 in
  let rotperiods :=
    map (fun component => get_value b' "period" "d" (Some component) "component")
        (get_stars b') in
  (j < length (sim_particles sm))%nat ->
  scan_integrate (mkSession sm []) (map (fun t => t - t0) times) !! i = Some s ->
  let eu := calculate_euler sibling_Ns rotperiods s j in
  cell (ds ea) j i = Some (eu_d eu)
  /\ cell (Fs ea) j i = Some (eu_F eu)
  /\ cell (ethetas ea) j i = Some (eu_etheta eu)
  /\ cell (elongans ea) j i = Some (eu_elongan eu)
  /\ cell (eincls ea) j i = Some (eu_eincl eu)
  /\ cell (periods ea) j i = Some (eu_period eu)
  /\ cell (smas ea) j i = Some (eu_sma eu)
  /\ cell (eccs ea) j i = Some (eu_ecc eu)
  /\ cell (per0s ea) j i = Some (eu_per0 eu)
  /\ cell (long_ans ea) j i = Some (eu_long_an eu)
  /\ cell (incls ea) j i = Some (eu_incl eu)
  /\ cell (t0_perpasses ea) j i = Some (eu_t0_perpass eu).
Proof.
  intros Hcount Hltte Hres Hea b' t0 sm sibling_Ns rotperiods Hj Hi eu.
  destruct (rebound_no_ltte_tables b times compute rre kwargs out
              Hcount Hltte Hres) as [_ He].
  rewrite (He ea Hea). fold b' t0 sm sibling_Ns rotperiods.
  unfold recorded_euler.
  cbn [ds Fs ethetas elongans eincls periods smas eccs per0s long_ans incls
       t0_perpasses].
  repeat split;
    match goal with
    | |- cell (column_table _ ?g _ _) _ _ = _ =>
        exact (cell_column_table _ g _ j i s Hj Hi)
    end.
Qed.

(** *** The particles and sibling indices set up before the loop *)

Lemma add_stars_siblings (b : Bundle) (starrefs : list string) (init : Arrays F)
    its :
  forall sm sib,
    (fold_left (add_star env b starrefs init) its (sm, sib)).2
    = sib ++ map (fun it : nat * string =>
                    map (fun s => index_of s starrefs)
                        (get_stars_of_sibling_of b it.2)) its.
Proof.
  induction its as [| [i starref] its IH]; intros sm sib; cbn [fold_left map].
  - cbn. now rewrite app_nil_r.
  - unfold add_star at 2. rewrite IH, <- app_assoc. reflexivity.
Qed.

Lemma add_stars_particles (b : Bundle) (starrefs : list string) (init : Arrays F)
    (Hadd : forall s p, sim_particles (sim_add s p) = sim_particles s ++ [p])
    its :
  forall sm sib,
    sim_particles (fold_left (add_star env b starrefs init) its (sm, sib)).1
    = sim_particles sm
      ++ map (fun it : nat * string =>
                mkParticle
                  (get_value b "mass" "solMass" (Some it.2) "component"
                   * G_solRad env)
                  (at0 (xs init) it.1) (at0 (ys init) it.1) (at0 (zs init) it.1)
                  (at0 (vxs init) it.1) (at0 (vys init) it.1)
                  (at0 (vzs init) it.1)) its.
Proof.
  induction its as [| [i starref] its IH]; intros sm sib; cbn [fold_left map].
  - cbn. now rewrite app_nil_r.
  - unfold add_star at 2. rewrite IH, Hadd, <- app_assoc. reflexivity.
Qed.

Lemma initial_particles_list (L : ReboundLaws F) (b : Bundle)
    (compute : option string) (kwargs : gmap string (Value F)) :
  let b' := run_delayed_constraints b in
  let t0 := get_value b' "t0" "d" None "system" in
  let init := keplerian_dynamics_from_bundle b' [t0] compute in
  sim_particles (initial_simulation env b compute kwargs).1
  = map (fun it : nat * string =>
           mkParticle
             (get_value b' "mass" "solMass" (Some it.2) "component"
              * G_solRad env)
             (at0 (xs init) it.1) (at0 (ys init) it.1) (at0 (zs init) it.1)
             (at0 (vxs init) it.1) (at0 (vys init) it.1) (at0 (vzs init) it.1))
        (enumerate (get_stars b')).
Proof.
  intros b' t0 init. unfold initial_simulation. fold b'. fold t0. fold init.
  rewrite (add_stars_particles b' (get_stars b') init (add_appends L)).
  rewrite (set_dt_keeps L), (set_integrator_keeps L).
  destruct (as_bool _); [rewrite (gr_keeps L) |]; now rewrite (new_empty L).
Qed.

Lemma lookup_enumerate_from {A : Type} (l : list A) :
  forall j a k,
    l !! j = Some a -> enumerate_from k l !! j = Some ((k + j)%nat, a).
Proof.
  induction l as [| x l IH]; intros j a k Hj; [discriminate |].
  destruct j as [| j]; cbn [enumerate_from].
  - injection Hj as ->. now rewrite Nat.add_0_r.
  - change (enumerate_from (S k) l !! j = Some ((k + S j)%nat, a)).
    rewrite (IH j a (S k) Hj). do 2 f_equal. lia.
Qed.

Lemma length_enumerate_from {A : Type} (l : list A) :
  forall k, length (enumerate_from k l) = length l.
Proof. induction l as [| x l IH]; intros k; cbn; [| rewrite IH]; reflexivity. Qed.

(** X5: particle [j] of the simulation the loop starts from is star [j] of
    the hierarchy: its mass is the star's mass times G (in solRad^3 / (solMass
    d^2)), its position and velocity the first entry of the star's
    Keplerian arrays at [t0], whatever integrator, step size and GR
    setting were requested. *)
Theorem rebound_initial_particles (L : ReboundLaws F) (b : Bundle)
    (compute : option string) (kwargs : gmap string (Value F)) j starref :
  let b' := run_delayed_constraints b in
  let t0 := get_value b' "t0" "d" None "system" in
  let init := keplerian_dynamics_from_bundle b' [t0] compute in
  get_stars b' !! j = Some starref ->
  length (sim_particles (initial_simulation env b compute kwargs).1)
  = length (get_stars b')
  /\ sim_particles (initial_simulation env b compute kwargs).1 !! j
     = Some (mkParticle
               (get_value b' "mass" "solMass" (Some starref) "component"
                * G_solRad env)
               (at0 (xs init) j) (at0 (ys init) j) (at0 (zs init) j)
               (at0 (vxs init) j) (at0 (vys init) j) (at0 (vzs init) j)).
Proof.
  intros b' t0 init Hj. rewrite (initial_particles_list L). fold b' t0 init.
  split.
  - rewrite length_map. apply length_enumerate_from.
  - rewrite list_lookup_fmap. unfold enumerate.
    rewrite (lookup_enumerate_from _ _ _ 0%nat Hj). reflexivity.
Qed.

Lemma index_of_lookup (s : string) (l : list string) :
  s ∈ l -> l !! index_of s l = Some s.
Proof.
  induction l as [| x l IH]; intros Hin; [now apply elem_of_nil in Hin |].
  cbn [index_of]. destruct (String.eqb_spec x s) as [-> | Hne]; [reflexivity |].
  cbn. apply IH. apply elem_of_cons in Hin as [-> | Hin]; [congruence | exact Hin].
Qed.

(** X6: [sibling_Ns[j]] lists, in the order of
    [get_stars_of_sibling_of(starrefs[j])], the positions of those stars in
    [starrefs], so that [calculate_euler] takes the particles of the
    sibling's stars. *)
Theorem rebound_sibling_indices (b : Bundle) (compute : option string)
    (kwargs : gmap string (Value F)) j starref :
  let b' := run_delayed_constraints b in
  get_stars b' !! j = Some starref ->
  (forall s, s ∈ get_stars_of_sibling_of b' starref -> s ∈ get_stars b') ->
  exists sibling_N,
    (initial_simulation env b compute kwargs).2 !! j = Some sibling_N
    /\ map (fun k => get_stars b' !! k) sibling_N
       = map Some (get_stars_of_sibling_of b' starref).
Proof.
  intros b' Hj Hsub. unfold initial_simulation. fold b'.
  rewrite add_stars_siblings. cbn [app].
  exists (map (fun s => index_of s (get_stars b'))
              (get_stars_of_sibling_of b' starref)).
  split.
  - rewrite list_lookup_fmap. unfold enumerate.
    rewrite (lookup_enumerate_from _ _ _ 0%nat Hj). reflexivity.
  - rewrite map_map. apply map_ext_in. intros s Hin.
    apply index_of_lookup, Hsub. now apply list_elem_of_In.
Qed.

(** X7: an exception of the root finder in the LTTE correction of the
    first star at the first time is not caught: the call raises it and
    returns nothing. *)
Theorem rebound_root_finder_error_escapes (L : ReboundLaws F) (b : Bundle)
    (t : F) (rest : list F) (compute : option string)
    (kwargs : gmap string (Value F)) ex :
  let b' := run_delayed_constraints b in
  let t' := t - get_value b' "t0" "d" None "system" in
  _can_rebound env = true ->
  (as_bool (compute_get_value b' compute "gr" kwargs) = true ->
   _can_reboundx env = true) ->
  as_bool (compute_get_value b' compute "ltte" kwargs) = true ->
  get_stars b' <> [] ->
  (newton (residual env 0 t') t'
          (integrate (mkSession (initial_simulation env b compute kwargs).1 [])
                     t' true)).1 = inl ex ->
  result (dynamics_from_bundle_rebound env b (t :: rest) compute false kwargs)
  = inl ex.
Proof.
  intros b' t' Hreb Hgr Hltte Hstars Hnewton.
  rewrite (rebound_run_unfold b (t :: rest) compute false kwargs Hreb Hgr).
  fold b'. rewrite Hltte. cbn [map enumerate enumerate_from for_each].
  fold t'. unfold time_step at 1. cbn [l_sess l_pos l_euler].
  set (s1 := integrate _ t' true) in *.
  assert (HN : exists n, length (sim_particles (sim s1)) = S n).
  { unfold s1, integrate. cbn [sim].
    rewrite (integrate_keeps_count L), (initial_particles_list L).
    rewrite length_map. fold b'. unfold enumerate.
    destruct (get_stars b') as [| x l]; [congruence |]. cbn. eauto. }
  destruct HN as [n ->]. cbn [seq for_each].
  unfold body_step at 1. cbn [l_sess l_pos l_euler]. unfold particle_ltte.
  destruct (newton _ _ _) as [[ex' | tb] s2]; cbn in Hnewton; [| discriminate].
  injection Hnewton as ->. reflexivity.
Qed.

End ReboundDriverFacts.

(** ** Closed runs: the two-star bundle on the force-free backend *)

Section ReboundDriverRuns.
Import RealModel RealFacts.
Local Open Scope R_scope.

Local Abbreviation two_stars_run times rre :=
  (@dynamics_from_bundle_rebound R R_ops drift_two_body secant_scipy
     table_bundle (env_R true true) two_stars times None rre ∅).

Local Abbreviation two_stars_initial :=
  (@initial_simulation R R_ops drift_two_body table_bundle (env_R true true)
     two_stars None ∅).

(** The force-free backend keeps the laws the driver relies on. *)
Lemma drift_laws orbit_of : @ReboundLaws R (drift_rebound orbit_of).
Proof.
  constructor; try reflexivity.
  intros s t e. cbn. apply length_map.
Qed.

Lemma two_stars_initial_simulation kwargs :
  kwargs !! "stepsize" = None -> kwargs !! "gr" = None ->
  kwargs !! "integrator" = None ->
  @initial_simulation R R_ops drift_two_body table_bundle (env_R true true)
     two_stars None kwargs
  = (mkDrift 0
       [mkParticle (1 * G_solRad (env_R true true)) 0 0
          (c_AU_d (env_R true true)) 1 0 0;
        mkParticle (1 * G_solRad (env_R true true)) 2 0 0 (-1) 0 0]
       (1 / 100) "ias15" false,
     [[1%nat]; [0%nat]]).
Proof.
  intros Hs Hg Hi. unfold initial_simulation.
  cbn [compute_get_value table_bundle run_delayed_constraints].
  rewrite Hs, Hg, Hi. reflexivity.
Qed.

Lemma two_stars_run_returns times rre :
  exists out,
    result (two_stars_run times rre) = inr out
    /\ (rre = true -> exists ea, out_euler out = Some ea).
Proof.
  apply (@rebound_no_ltte_returns R R_ops drift_two_body secant_scipy
           table_bundle (env_R true true) two_stars times None rre ∅).
  - reflexivity.
  - intros _. reflexivity.
  - reflexivity.
Qed.

(** X1, witness: two stars, the times [2, 1], Roche/Euler arrays asked
    for. *)
Lemma rebound_output_shape_witness :
  exists out,
    result (two_stars_run [2; 1] true) = inr out
    /\ out_times out = map (fun t => t - 0) [2; 1]
    /\ arrays_shaped 2 2 (out_pos out)
    /\ match out_euler out with
       | Some ea => true = true /\ euler_shaped 2 2 ea
       | None => true = false
       end.
Proof.
  destruct (two_stars_run_returns [2; 1] true) as (out & Hout & _).
  exists out. split; [exact Hout |].
  pose proof (@rebound_output_shape R R_ops drift_two_body secant_scipy
                table_bundle (env_R true true) two_stars [2; 1] None true ∅
                out Hout) as Hshape.
  cbv zeta in Hshape.
  rewrite two_stars_initial_simulation in Hshape by reflexivity.
  exact Hshape.
Defined.

(** X2, witness: the same run. *)
Lemma rebound_euler_angles_repeat_elements_witness :
  exists out ea,
    result (two_stars_run [2; 1] true) = inr out
    /\ out_euler out = Some ea
    /\ elongans ea = long_ans ea /\ eincls ea = incls ea.
Proof.
  destruct (two_stars_run_returns [2; 1] true) as (out & Hout & Hea).
  destruct (Hea eq_refl) as [ea Hsome].
  exists out, ea. split; [exact Hout |]. split; [exact Hsome |].
  exact (@rebound_euler_angles_repeat_elements R R_ops drift_two_body
           secant_scipy table_bundle (env_R true true) two_stars [2; 1] None
           true ∅ out ea Hout Hsome).
Defined.

(** X3, witness: the same bundle; star 0 at time index 1, where the
    simulation has been integrated to 2 and then to 1. *)
Lemma rebound_no_ltte_positions_witness :
  let s := integrate (integrate (mkSession two_stars_initial.1 []) (2 - 0) true)
                     (1 - 0) true in
  exists out,
    result (two_stars_run [2; 1] false) = inr out
    /\ cell (xs (out_pos out)) 0 1 = Some (p_x (particle_at s 0))
    /\ cell (ys (out_pos out)) 0 1 = Some (p_y (particle_at s 0))
    /\ cell (zs (out_pos out)) 0 1 = Some (p_z (particle_at s 0))
    /\ cell (vxs (out_pos out)) 0 1 = Some (p_vx (particle_at s 0))
    /\ cell (vys (out_pos out)) 0 1 = Some (p_vy (particle_at s 0))
    /\ cell (vzs (out_pos out)) 0 1 = Some (p_vz (particle_at s 0)).
Proof.
  intros s.
  destruct (two_stars_run_returns [2; 1] false) as (out & Hout & _).
  exists out. split; [exact Hout |].
  apply (@rebound_no_ltte_positions R R_ops drift_two_body secant_scipy
           table_bundle (env_R true true) two_stars [2; 1] None false ∅
           out 1%nat 0%nat s).
  - exact (integrate_keeps_count (drift_laws two_body_orbit)).
  - reflexivity.
  - exact Hout.
  - rewrite two_stars_initial_simulation by reflexivity. cbn. lia.
  - reflexivity.
Defined.

(** X4, witness: the same, with the Roche/Euler arrays. *)
Lemma rebound_no_ltte_euler_at_requested_time_witness :
  let s := integrate (integrate (mkSession two_stars_initial.1 []) (2 - 0) true)
                     (1 - 0) true in
  let eu := calculate_euler two_stars_initial.2 [1; 1] s 0 in
  exists out ea,
    result (two_stars_run [2; 1] true) = inr out
    /\ out_euler out = Some ea
    /\ cell (ds ea) 0 1 = Some (eu_d eu)
    /\ cell (Fs ea) 0 1 = Some (eu_F eu)
    /\ cell (ethetas ea) 0 1 = Some (eu_etheta eu)
    /\ cell (elongans ea) 0 1 = Some (eu_elongan eu)
    /\ cell (eincls ea) 0 1 = Some (eu_eincl eu)
    /\ cell (periods ea) 0 1 = Some (eu_period eu)
    /\ cell (smas ea) 0 1 = Some (eu_sma eu)
    /\ cell (eccs ea) 0 1 = Some (eu_ecc eu)
    /\ cell (per0s ea) 0 1 = Some (eu_per0 eu)
    /\ cell (long_ans ea) 0 1 = Some (eu_long_an eu)
    /\ cell (incls ea) 0 1 = Some (eu_incl eu)
    /\ cell (t0_perpasses ea) 0 1 = Some (eu_t0_perpass eu).
Proof.
  intros s eu.
  destruct (two_stars_run_returns [2; 1] true) as (out & Hout & Hea).
  destruct (Hea eq_refl) as [ea Hsome].
  exists out, ea. split; [exact Hout |]. split; [exact Hsome |].
  apply (@rebound_no_ltte_euler_at_requested_time R R_ops drift_two_body
           secant_scipy table_bundle (env_R true true) two_stars [2; 1] None
           true ∅ out ea 1%nat 0%nat s).
  - exact (integrate_keeps_count (drift_laws two_body_orbit)).
  - reflexivity.
  - exact Hout.
  - exact Hsome.
  - rewrite two_stars_initial_simulation by reflexivity. cbn. lia.
  - reflexivity.
Defined.

(** X5, witness: the primary of the two-star bundle. *)
Lemma rebound_initial_particles_witness :
  length (sim_particles two_stars_initial.1) = 2%nat
  /\ sim_particles two_stars_initial.1 !! 0%nat
     = Some (mkParticle (1 * G_solRad (env_R true true)) 0 0
               (c_AU_d (env_R true true)) 1 0 0).
Proof.
  apply (@rebound_initial_particles R R_ops drift_two_body table_bundle
           (env_R true true) (drift_laws two_body_orbit) two_stars None ∅
           0%nat "primary").
  reflexivity.
Defined.

(** X6, witness: the sibling of the primary is the secondary, star 1. *)
Lemma rebound_sibling_indices_witness :
  exists sibling_N,
    two_stars_initial.2 !! 0%nat = Some sibling_N
    /\ map (fun k => tb_stars two_stars !! k) sibling_N = map Some ["secondary"].
Proof.
  apply (@rebound_sibling_indices R R_ops drift_two_body table_bundle
           (env_R true true) two_stars None ∅ 0%nat "primary").
  - reflexivity.
  - intros s Hs. apply list_elem_of_singleton in Hs as ->.
    apply elem_of_cons. right. apply elem_of_cons. now left.
Defined.

(** X7, witness: the two-star bundle with [ltte=True] and a root finder
    that fails. *)
Lemma rebound_root_finder_error_escapes_witness :
  result (@dynamics_from_bundle_rebound R R_ops drift_two_body failing_scipy
            table_bundle (env_R true true) two_stars [0] None false kw_ltte)
  = inl (RuntimeError "Failed to converge").
Proof.
  apply (@rebound_root_finder_error_escapes R R_ops drift_two_body
           failing_scipy table_bundle (env_R true true)
           (drift_laws two_body_orbit) two_stars 0 [] None kw_ltte
           (RuntimeError "Failed to converge")).
  - reflexivity.
  - intros _. reflexivity.
  - reflexivity.
  - discriminate.
  - reflexivity.
Defined.

End ReboundDriverRuns.

(** ** More on the photodynam driver *)

Section PhotodynamElements.
Context {F : Type} `{FloatOps F} `{Photodynam F} `{BundleAPI F}.
Variable env : Env F.
Local Open Scope fl_scope.

(** X19: with [return_roche_euler], at least two stars, and photodynam
    tables and orbit lists long enough for every read, every instantaneous
    array [dynamics_bs] returns has the same row for star 0 and star 1:
    both read column 0 of photodynam's [kepl_*] output, the same total
    mass [masses[:2]] and the same [long_ans[0]] and [incls[0]]. *)
Theorem dynamics_bs_inner_binary_same_elements
    (times masses smas eccs incls per0s long_ans mean_anoms : list F)
    (t0 vgamma stepsize orbiterror : F) (ltte : bool) :
  let d := do_dynamics times masses smas eccs incls per0s long_ans mean_anoms
             t0 stepsize orbiterror ltte true in
  let in_range := kepl_in_range (length times) (length masses - 1) in
  (2 <= length masses)%nat ->
  in_range (d_kepl_a d) -> in_range (d_kepl_e d) -> in_range (d_kepl_in d) ->
  in_range (d_kepl_o d) -> in_range (d_kepl_ln d) -> in_range (d_kepl_ma d) ->
  (length masses - 1 <= length long_ans)%nat ->
  (length masses - 1 <= length incls)%nat ->
  exists e,
    bs_inst (dynamics_bs env times masses smas eccs incls per0s long_ans
               mean_anoms t0 vgamma stepsize orbiterror ltte true) = Some e
    /\ same_first_rows (inst_ds F e) /\ same_first_rows (inst_Fs F e)
    /\ same_first_rows (inst_ethetas F e) /\ same_first_rows (inst_elongans F e)
    /\ same_first_rows (inst_eincls F e) /\ same_first_rows (inst_periods F e)
    /\ same_first_rows (inst_smas F e) /\ same_first_rows (inst_eccs F e)
    /\ same_first_rows (inst_per0s F e) /\ same_first_rows (inst_long_ans F e)
    /\ same_first_rows (inst_incls F e)
    /\ same_first_rows (inst_t0_perpasses F e).
Proof.
  intros d in_range Hlen _ _ _ _ _ _ _ _.
  destruct masses as [| m0 [| m1 rest]]; cbn in Hlen; [lia | lia |].
  unfold dynamics_bs. cbn [length seq map]. eexists. split; [reflexivity |].
  cbn [inst_ds inst_Fs inst_ethetas inst_elongans inst_eincls inst_periods
       inst_smas inst_eccs inst_per0s inst_long_ans inst_incls
       inst_t0_perpasses replicate zip_with Nat.eqb Nat.sub Nat.add take].
  unfold same_first_rows.
  repeat split; eexists; split; reflexivity.
Qed.

(** X20: the systemic velocity is read from the bundle and not used: two
    bundles that agree on the hierarchy, on [ltte] and on every value but
    [vgamma] give the same result. *)
Theorem dynamics_from_bundle_ignores_vgamma (b b' : Bundle)
    (times : list F) (compute : option string) (rre : bool)
    (kwargs : gmap string (Value F)) :
  get_stars b = get_stars b' ->
  get_orbits b = get_orbits b' ->
  compute_get_value b compute "ltte" kwargs
  = compute_get_value b' compute "ltte" kwargs ->
  (forall qualifier unit component context,
      qualifier <> "vgamma" ->
      get_value b qualifier unit component context
      = get_value b' qualifier unit component context) ->
  dynamics_from_bundle env b times compute rre kwargs
  = dynamics_from_bundle env b' times compute rre kwargs.
Proof.
  intros Hs Ho Hl Hv. unfold dynamics_from_bundle, dynamics_from_bundle_bs.
  rewrite Hs, Ho, Hl.
  rewrite !(Hv _ _ _ _) by discriminate.
  assert (Hm : forall q u,
             q <> "vgamma" ->
             map (fun component : string =>
                    get_value b q u (Some component) "component") (get_orbits b')
             = map (fun component : string =>
                      get_value b' q u (Some component) "component")
                   (get_orbits b')).
  { intros q u Hne. apply map_ext. intros c. now apply Hv. }
  rewrite !Hm by discriminate.
  assert (Hmass : map (fun component : string =>
             get_value b "mass" "solMass" (Some component) "component" * G_AU env)
             (get_stars b')
           = map (fun component : string =>
             get_value b' "mass" "solMass" (Some component) "component" * G_AU env)
             (get_stars b')).
  { apply map_ext. intros c. now rewrite Hv by discriminate. }
  rewrite Hmass. reflexivity.
Qed.

End PhotodynamElements.

Section PhotodynamElementsReal.
Import RealModel RealFacts.
Local Open Scope R_scope.

Context `{Photodynam R}.
Variable env : Env R.

Lemma compute_period_R (a M : R) :
  au_to_solrad env <> 0 -> M <> 0 ->
  @_compute_period R R_ops env (a * au_to_solrad env) M one
  = sqrt (4 * (PI * PI) * (a * a * a) / M).
Proof.
  intros Hau HM. unfold _compute_period.
  rewrite R_pow_half, R_pow_2, R_pow_3, four_R, one_R.
  cbn [fmul fdiv f_pi R_ops]. f_equal. field. split; assumption.
Qed.

(** X21: the instantaneous period [dynamics_bs] returns for star 0 at time
    index [ti] satisfies Kepler's third law with photodynam's own
    semi-major axis [kepl_a] (in AU) and the summed masses of the first two
    stars, [P^2 (m0 + m1) = 4 pi^2 kepl_a^3]; the epoch of periastron is
    [- mean_anom * P / (2 pi)], counted from 0 and not from [t0]. *)
Theorem dynamics_bs_inst_period_kepler
    (times smas eccs incls per0s long_ans mean_anoms rest : list R)
    (m0 m1 t0 vgamma stepsize orbiterror : R) (ltte : bool) (ti : nat) :
  let masses := m0 :: m1 :: rest in
  let d := do_dynamics times masses smas eccs incls per0s long_ans mean_anoms
             t0 stepsize orbiterror ltte true in
  let a := kepl (d_kepl_a d) ti 0 in
  0 < au_to_solrad env ->
  0 < m0 + m1 ->
  0 <= a ->
  (ti < length times)%nat ->
  exists e P,
    bs_inst (dynamics_bs env times masses smas eccs incls per0s long_ans
               mean_anoms t0 vgamma stepsize orbiterror ltte true) = Some e
    /\ cell (inst_smas R e) 0 ti = Some (a * au_to_solrad env)
    /\ cell (inst_periods R e) 0 ti = Some P
    /\ P * P * (m0 + m1) = 4 * (PI * PI) * (a * a * a)
    /\ cell (inst_t0_perpasses R e) 0 ti
       = Some (- (kepl (d_kepl_ma d) ti 0 * P) / (2 * PI)).
Proof.
  intros masses d a Hau Hm Ha Hti.
  unfold dynamics_bs. fold d. cbn [length seq map masses]. eexists.
  exists (sqrt (4 * (PI * PI) * (a * a * a) / (m0 + m1))).
  split; [reflexivity |].
  cbn [inst_periods inst_smas inst_t0_perpasses zip_with Nat.eqb take
       fold_left].
  unfold cell. cbn [lookup list_lookup].
  assert (HM : fold_left fadd (take 2 masses) zero = m0 + m1).
  { unfold masses. cbn [take fold_left]. rewrite zero_R, take_0.
    cbn [fold_left fadd R_ops]. lra. }
  rewrite HM, lookup_zip_with, !list_lookup_fmap, lookup_seq_lt by exact Hti.
  cbn [fmap option_fmap option_map mbind option_bind Nat.add].
  fold a. change (a * au_to_solrad env)%fl with (a * au_to_solrad env).
  rewrite compute_period_R by lra.
  split; [reflexivity |]. split; [reflexivity |]. split.
  - rewrite sqrt_sqrt.
    + field. lra.
    + assert (0 < PI * PI) by (pose proof PI_gt_3; nra).
      assert (0 <= a * a * a) by (apply Rmult_le_pos; nra).
      apply Rmult_le_pos; [nra |]. apply Rlt_le, Rinv_0_lt_compat. lra.
  - f_equal. unfold _compute_t0_perpass. rewrite zero_R, two_R.
    cbn [fsub fmul fdiv f_pi R_ops]. pose proof PI_gt_3. field. lra.
Qed.

End PhotodynamElementsReal.

(** ** Closed runs of the photodynam driver, continued *)

Section ClosedPhotodynamElements.
Import RealModel RealFacts.
Local Open Scope R_scope.

Lemma elements_photodynam_in_range (f : R -> R) (times smas : list R) n :
  (n <= length smas)%nat ->
  kepl_in_range (length times) n
    (map (fun t => map (fun _ : R => f t) smas) times).
Proof.
  intros Hn ti Hti. destruct (lookup_lt_is_Some_2 times ti Hti) as [t Ht].
  exists (map (fun _ : R => f t) smas). split.
  - rewrite list_lookup_fmap, Ht. reflexivity.
  - now rewrite length_map.
Qed.

(** X19, witness: two stars in one orbit at two times, on a backend whose
    [kepl_*] tables have an entry for each time and orbit. *)
Lemma dynamics_bs_inner_binary_same_elements_witness :
  exists e,
    bs_inst (@dynamics_bs R R_ops elements_photodynam (env_R true true)
               [0; 1] [1; 2] [1] [0] [0] [0] [0] [0] 0 0 (1 / 100) (1 / 100)
               false true) = Some e
    /\ same_first_rows (inst_ds R e) /\ same_first_rows (inst_Fs R e)
    /\ same_first_rows (inst_ethetas R e) /\ same_first_rows (inst_elongans R e)
    /\ same_first_rows (inst_eincls R e) /\ same_first_rows (inst_periods R e)
    /\ same_first_rows (inst_smas R e) /\ same_first_rows (inst_eccs R e)
    /\ same_first_rows (inst_per0s R e) /\ same_first_rows (inst_long_ans R e)
    /\ same_first_rows (inst_incls R e)
    /\ same_first_rows (inst_t0_perpasses R e)
    /\ inst_smas R e !! 0%nat
       = Some [fmul (0 + 1) (au_to_solrad (env_R true true));
               fmul (1 + 1) (au_to_solrad (env_R true true))].
Proof.
  destruct (@dynamics_bs_inner_binary_same_elements R R_ops elements_photodynam
              (env_R true true) [0; 1] [1; 2] [1] [0] [0] [0] [0] [0] 0 0
              (1 / 100) (1 / 100) false)
    as (e & He & H1 & H2 & H3 & H4 & H5 & H6 & H7 & H8 & H9 & H10 & H11 & H12);
    try (apply (elements_photodynam_in_range _ [0; 1] [1] 1); cbn; lia);
    try (cbn; lia).
  exists e. split; [exact He |].
  do 12 (split; [assumption |]).
  unfold dynamics_bs in He. cbn [bs_inst] in He. injection He as <-.
  reflexivity.
Defined.

(** X20, witness: the two-star bundle, with systemic velocity 0 and 5. *)
Lemma dynamics_from_bundle_ignores_vgamma_witness :
  tb_value two_stars "vgamma" None <> tb_value (with_vgamma 5 two_stars) "vgamma" None
  /\ @dynamics_from_bundle R R_ops sample_photodynam table_bundle
       (env_R true true) two_stars [0; 1] None true ∅
     = @dynamics_from_bundle R R_ops sample_photodynam table_bundle
         (env_R true true) (with_vgamma 5 two_stars) [0; 1] None true ∅.
Proof.
  split; [cbn; lra |].
  apply (@dynamics_from_bundle_ignores_vgamma R R_ops sample_photodynam
           table_bundle (env_R true true) two_stars (with_vgamma 5 two_stars)
           [0; 1] None true ∅).
  - reflexivity.
  - reflexivity.
  - reflexivity.
  - intros qualifier unit component context Hne.
    cbn [get_value table_bundle with_vgamma tb_value].
    destruct (String.eqb_spec qualifier "vgamma") as [-> | _];
      [congruence | reflexivity].
Defined.

(** X21, witness: two stars, read at time index 1 where [kepl_a = 2]. *)
Lemma dynamics_bs_inst_period_kepler_witness :
  let d := @do_dynamics R elements_photodynam [0; 1] [1; 2] [1] [0] [0] [0] [0]
             [0] 0 (1 / 100) (1 / 100) false true in
  exists e P,
    bs_inst (@dynamics_bs R R_ops elements_photodynam (env_R true true)
               [0; 1] [1; 2] [1] [0] [0] [0] [0] [0] 0 0 (1 / 100) (1 / 100)
               false true) = Some e
    /\ cell (inst_smas R e) 0 1
       = Some (kepl (d_kepl_a d) 1 0 * au_to_solrad (env_R true true))
    /\ cell (inst_periods R e) 0 1 = Some P
    /\ P * P * (1 + 2)
       = 4 * (PI * PI)
         * (kepl (d_kepl_a d) 1 0 * kepl (d_kepl_a d) 1 0 * kepl (d_kepl_a d) 1 0)
    /\ cell (inst_t0_perpasses R e) 0 1
       = Some (- (kepl (d_kepl_ma d) 1 0 * P) / (2 * PI)).
Proof.
  intros d.
  apply (@dynamics_bs_inst_period_kepler elements_photodynam (env_R true true)
           [0; 1] [1] [0] [0] [0] [0] [0] [] 1 2 0 0 (1 / 100) (1 / 100)
           false 1%nat).
  - cbn. lra.
  - lra.
  - cbn. lra.
  - cbn. lia.
Defined.

End ClosedPhotodynamElements.
